(** * Referendum pipeline of [pandas_questions.py]

    A shallow embedding of the four table transforms of the script

      merge_regions_and_departments, merge_referendum_and_areas,
      compute_referendum_result_by_regions, plot_referendum_map

    and the properties of the specification that concern them.

    Modelling choices.
    - A DataFrame is the list of its rows, in row order; a row is a record
      whose fields carry the column names of the script.
    - A Python [str] is the list of its Unicode code points.  Python compares
      and sorts strings code point by code point.
    - The count columns are int64 columns: sums wrap around modulo 2^64.
    - The ratio column is a float64 column: a finite value is a rational, and
      every float64 operation rounds its exact result with [RN], of which
      only the IEEE-754 laws are assumed.
    - Cells are always present: missing values (NaN in a string column) are
      outside the model, as are the CSV and GeoJSON readers. *)

From Stdlib Require Import List ZArith NArith QArith Bool Lia String Ascii.
From Stdlib Require Import DecimalString DecimalPos DecimalZ.
From Stdlib Require Import Sorting.Sorted Sorting.Permutation.
Import ListNotations.

Local Open Scope Z_scope.

(** ** Python strings *)

Definition pystr := list N.

(** An ASCII literal, one code point per character. *)
Definition lit (s : string) : pystr :=
  map N_of_ascii (list_ascii_of_string s).

Fixpoint str_eqb (s t : pystr) : bool :=
  match s, t with
  | [], [] => true
  | c :: s', d :: t' => N.eqb c d && str_eqb s' t'
  | _, _ => false
  end.

(** Python's [<] on [str]: lexicographic on code points. *)
Fixpoint str_compare (s t : pystr) : comparison :=
  match s, t with
  | [], [] => Eq
  | [], _ :: _ => Lt
  | _ :: _, [] => Gt
  | c :: s', d :: t' =>
      match N.compare c d with
      | Eq => str_compare s' t'
      | o => o
      end
  end.

Definition str_lt (s t : pystr) : Prop := str_compare s t = Lt.

(** Insertion into a strictly increasing list of strings. *)
Fixpoint insert_unique (k : pystr) (l : list pystr) : list pystr :=
  match l with
  | [] => [k]
  | x :: t =>
      match str_compare k x with
      | Lt => k :: l
      | Eq => l
      | Gt => x :: insert_unique k t
      end
  end.

(** The distinct values of a column, in increasing order: what [np.unique]
    returns and what [groupby] uses as its group keys. *)
Definition sorted_unique (l : list pystr) : list pystr :=
  fold_right insert_unique [] l.

(** ** The Unicode character database

    [str.isalpha] and [int(str)] consult the Unicode tables for characters
    outside ASCII.  They are a parameter of the development. *)

Record UnicodeData := {
  ucd_isalpha : N -> bool;        (* general category L* *)
  ucd_isspace : N -> bool;        (* Py_UNICODE_ISSPACE *)
  ucd_decimal : N -> option N     (* Py_UNICODE_TODECIMAL *)
}.

(** The database restricted to the code points below 256 (Latin-1). *)
Definition latin1 : UnicodeData := {|
  ucd_isalpha := fun c =>
    ((c =? 170) || (c =? 181) || (c =? 186)
     || ((192 <=? c) && (c <=? 214))
     || ((216 <=? c) && (c <=? 246))
     || ((248 <=? c) && (c <=? 255)))%N;
  ucd_isspace := fun c => ((c =? 133) || (c =? 160))%N;
  ucd_decimal := fun _ => None
|}.

(** ** int64 and float64 *)

Definition wrap64 (z : Z) : Z := (z + 2 ^ 63) mod 2 ^ 64 - 2 ^ 63.

Definition add64 (x y : Z) : Z := wrap64 (x + y).

Definition in_int64 (z : Z) : Prop := - 2 ^ 63 <= z < 2 ^ 63.

(** Sum of an int64 column. *)
Definition sum64 (l : list Z) : Z := fold_left add64 l 0.

(** Sum of a column in unbounded integers. *)
Definition zsum (l : list Z) : Z := fold_right Z.add 0 l.

Inductive float64 :=
  | Finite (q : Q)
  | NaN
  | PosInf
  | NegInf.

(** ** Exceptions *)

Inductive exn :=
  | IndexError
    (* raised by [.values[0]] on an empty selection *)
  | UnresolvedReferenceError (key : pystr).
    (* the error the specification names; nothing in the script raises it *)

Inductive result (A : Type) :=
  | Ok (a : A)
  | Raise (e : exn).

Arguments Ok {A} a.
Arguments Raise {A} e.

Definition bind {A B} (m : result A) (k : A -> result B) : result B :=
  match m with
  | Ok a => k a
  | Raise e => Raise e
  end.

Notation "x <- m ;; k" := (bind m (fun x => k))
  (at level 61, m at next level, right associativity).

Fixpoint mapM {A B} (f : A -> result B) (l : list A) : result (list B) :=
  match l with
  | [] => Ok []
  | a :: t => b <- f a ;; bs <- mapM f t ;; Ok (b :: bs)
  end.

(** ** Tables *)

Module Region.
Record t := mk { code : pystr; name : pystr }.
End Region.

Module Department.
Record t := mk { region_code : pystr; code : pystr; name : pystr }.
End Department.

(** Row of the table returned by [merge_regions_and_departments]. *)
Record AreaRow := mkArea {
  code_reg : pystr;
  name_reg : pystr;
  code_dep : pystr;
  name_dep : pystr
}.

(** Row of [referendum.csv]. *)
Record BallotRow := mkBallot {
  Department_code : pystr;
  Department_name : pystr;
  Town_code : Z;
  Town_name : pystr;
  Registered : Z;
  Abstentions : Z;
  Null : Z;
  Choice_A : Z;
  Choice_B : Z
}.

(** Row of the table returned by [merge_referendum_and_areas]: the ballot
    columns followed by the four area columns. *)
Record EnrichedRow := mkEnriched {
  ballot : BallotRow;
  area : AreaRow
}.

(** Row of the table returned by [compute_referendum_result_by_regions]:
    the index label and the six selected columns. *)
Record ResultRow := mkResult {
  res_index : Z;
  res_name_reg : pystr;
  res_Registered : Z;
  res_Abstentions : Z;
  res_Null : Z;
  res_Choice_A : Z;
  res_Choice_B : Z
}.

(** Row of [regions.geojson]. *)
Record GeoRow (Geometry : Type) := mkGeo {
  geo_code : pystr;
  nom : pystr;
  geometry : Geometry
}.

Arguments mkGeo {Geometry}.
Arguments geo_code {Geometry}.
Arguments nom {Geometry}.
Arguments geometry {Geometry}.

(** Row of the GeoDataFrame returned by [plot_referendum_map]. *)
Record RenderedRow (Geometry : Type) := mkRendered {
  rd_geometry : Geometry;
  rd_result : ResultRow;
  ratio : float64
}.

Arguments mkRendered {Geometry}.
Arguments rd_geometry {Geometry}.
Arguments rd_result {Geometry}.
Arguments ratio {Geometry}.

(** ** Example tables *)

(** "Auvergne-Rhône-Alpes": the o with circumflex is code point 244. *)
Definition auvergne_rhone_alpes : pystr :=
  lit "Auvergne-Rh" ++ [244%N] ++ lit "ne-Alpes".

Definition ex_regions : list Region.t :=
  [Region.mk (lit "84") auvergne_rhone_alpes].

Definition ex_departments : list Department.t :=
  [Department.mk (lit "84") (lit "01") (lit "Ain")].

Definition ex_ballot (dep_code : string) : BallotRow :=
  mkBallot (lit dep_code) (lit "AIN") 1 (lit "Amberieu") 100 20 5 40 35.

(** A department whose region code names no region. *)
Definition ex_orphan_departments : list Department.t :=
  [Department.mk (lit "99") (lit "01") (lit "Ain")].

(** An enriched row of region [name] carrying region code [code]. *)
Definition ex_enriched (code name : pystr) : EnrichedRow :=
  mkEnriched (ex_ballot "1") (mkArea code name (lit "01") (lit "Ain")).

Definition ex_result : ResultRow :=
  mkResult 0 auvergne_rhone_alpes 100 20 5 40 35.

Definition ex_region_map : list (GeoRow nat) :=
  [mkGeo (lit "11") (lit "Ile-de-France") 7%nat].

(** A result row whose two choice counts add up to 2^63. *)
Definition ex_overflow_result : ResultRow :=
  mkResult 0 auvergne_rhone_alpes 0 0 0 (2 ^ 62) (2 ^ 62).

(** The rounding of a machine whose floats are all the rationals. *)
Definition exact_rounding (q : Q) : Q := q.

(** ** Python's [str(int)] *)

Definition py_str (z : Z) : pystr :=
  lit (NilZero.string_of_int (Z.to_int z)).

Section Pipeline.

Variable ucd : UnicodeData.

(** Rounding to the nearest float64. *)
Variable RN : Q -> Q.

Variable Geometry : Type.

Hypothesis RN_proper : forall p q : Q, p == q -> RN p == RN q.
Hypothesis RN_monotone : forall p q : Q, (p <= q)%Q -> (RN p <= RN q)%Q.
Hypothesis RN_exact :
  forall z : Z, Z.abs z <= 2 ^ 53 -> RN (inject_Z z) == inject_Z z.

(** ** [str.isalpha] *)

Definition char_isalpha (c : N) : bool :=
  if (c <? 128)%N
  then (((65 <=? c) && (c <=? 90)) || ((97 <=? c) && (c <=? 122)))%N
  else ucd_isalpha ucd c.

(** True when the string is not empty and all its characters are letters. *)
Definition isalpha (s : pystr) : bool :=
  match s with
  | [] => false
  | _ :: _ => forallb char_isalpha s
  end.

(** ** [int(str)]

    CPython first rewrites the characters outside ASCII (a space becomes
    [' '], a decimal digit its ASCII digit, anything else ['?']), then reads
    blanks, a sign, digits separated by single underscores, and blanks up to
    the end of the string.  [None] stands for ValueError.  The length limit
    that recent interpreters put on the digits is not modelled: they refuse
    strings of more digits than a configurable limit, 4300 by default and
    never below 640, so the model is that of every interpreter on strings
    of at most 640 digits, and of an interpreter without limit on longer
    ones. *)

Definition to_ascii (c : N) : N :=
  if (c <? 127)%N then c
  else if ucd_isspace ucd c then 32%N
  else match ucd_decimal ucd c with
       | Some d => if (d <=? 9)%N then (48 + d)%N else 63%N
       | None => 63%N
       end.

Definition is_space (c : N) : bool :=
  (((9 <=? c) && (c <=? 13)) || (c =? 32))%N.

Definition digit_value (c : N) : option Z :=
  if ((48 <=? c) && (c <=? 57))%N then Some (Z.of_N (c - 48)) else None.

Fixpoint skip_spaces (s : list N) : list N :=
  match s with
  | c :: t => if is_space c then skip_spaces t else s
  | [] => []
  end.

(** The digit loop: [prev] is the character read last, [None] before the
    first one.  Two underscores in a row, an underscore at the end and an
    empty run of digits are errors. *)
Fixpoint scan_digits (acc : Z) (prev : option N) (s : list N)
  : option (Z * list N) :=
  let stop :=
    match prev with
    | None => None
    | Some p => if (p =? 95)%N then None else Some (acc, s)
    end in
  match s with
  | [] => stop
  | c :: t =>
      if (c =? 95)%N then
        match prev with
        | Some 95%N => None
        | _ => scan_digits acc (Some c) t
        end
      else
        match digit_value c with
        | Some d => scan_digits (10 * acc + d) (Some c) t
        | None => stop
        end
  end.

Definition py_int (s : pystr) : option Z :=
  let s := skip_spaces (map to_ascii s) in
  let '(sign, s) :=
    match s with
    | 43%N :: t => (1, t)
    | 45%N :: t => (-1, t)
    | _ => (1, s)
    end in
  match s with
  | 95%N :: _ => None
  | _ =>
      match scan_digits 0 None s with
      | Some (n, rest) =>
          match skip_spaces rest with
          | [] => Some (sign * n)
          | _ :: _ => None
          end
      | None => None
      end
  end.

(** [try: dep_code = str(int(dep_code))  except: pass] *)
Definition normalize (dep_code : pystr) : pystr :=
  match py_int dep_code with
  | Some n => py_str n
  | None => dep_code
  end.

(** ** [merge_regions_and_departments] *)

(** [mask = df["code_reg"] == row["code"]; df.loc[mask, "name_reg"] = row["name"]] *)
Definition set_name_reg (row : Region.t) (df : list AreaRow) : list AreaRow :=
  map (fun rec =>
         let mask := str_eqb (code_reg rec) (Region.code row) in
         if mask
         then mkArea (code_reg rec) (Region.name row) (code_dep rec) (name_dep rec)
         else rec) df.

Definition merge_regions_and_departments
  (regions : list Region.t) (departments : list Department.t) : list AreaRow :=
  let df :=
    map (fun d => mkArea (Department.region_code d) []
                         (Department.code d) (Department.name d))
        departments in
  fold_left (fun df row => set_name_reg row df) regions df.

(** ** [merge_referendum_and_areas] *)

Definition isin (x : pystr) (l : list pystr) : bool := existsb (str_eqb x) l.

(** [Series.mask(mask, value)] at one cell. *)
Definition series_mask {A} (cell : A) (mask : bool) (value : A) : A :=
  if mask then value else cell.

(** One iteration of the merging loop, at one row of [df]. *)
Definition attach (row : AreaRow) (r : EnrichedRow) : EnrichedRow :=
  let dep_code := normalize (code_dep row) in
  let mask := str_eqb (Department_code (ballot r)) dep_code in
  let a := area r in
  let code_dep' := series_mask (code_dep a) mask (code_dep row) in
  let name_dep' := series_mask (name_dep a) mask (name_dep row) in
  let code_reg' := series_mask (code_reg a) mask (code_reg row) in
  let name_reg' := series_mask (name_reg a) mask (name_reg row) in
  mkEnriched (ballot r) (mkArea code_reg' name_reg' code_dep' name_dep').

Definition merge_referendum_and_areas
  (referendum : list BallotRow) (regions_and_departments : list AreaRow)
  : list EnrichedRow :=
  let dep_codes := sorted_unique (map Department_code referendum) in
  let dep_codes := filter (fun el => negb (isalpha el)) dep_codes in
  let df := filter (fun r => isin (Department_code r) dep_codes) referendum in
  let df := map (fun r => mkEnriched r (mkArea [] [] [] [])) df in
  fold_left (fun df row => map (attach row) df) regions_and_departments df.

(** ** [compute_referendum_result_by_regions] *)

Definition region_of (r : EnrichedRow) : pystr := name_reg (area r).

Definition group (key : pystr) (df : list EnrichedRow) : list EnrichedRow :=
  filter (fun r => str_eqb (region_of r) key) df.

Definition column (f : BallotRow -> Z) (df : list EnrichedRow) : list Z :=
  map (fun r => f (ballot r)) df.

(** [groupby(["name_reg"]).sum()], then the group key becomes the column
    [name_reg], the index becomes [0 .. n-1], and six columns are kept. *)
Definition compute_referendum_result_by_regions
  (referendum_and_areas : list EnrichedRow) : list ResultRow :=
  let keys := sorted_unique (map region_of referendum_and_areas) in
  map (fun '(i, key) =>
         let g := group key referendum_and_areas in
         mkResult (Z.of_nat i) key
                  (sum64 (column Registered g))
                  (sum64 (column Abstentions g))
                  (sum64 (column Null g))
                  (sum64 (column Choice_A g))
                  (sum64 (column Choice_B g)))
      (combine (seq 0 (List.length keys)) keys).

(** ** [plot_referendum_map] *)

(** int64 to float64. *)
Definition of_int64 (z : Z) : Q := RN (inject_Z z).

(** numpy's [/] on two int64 values. *)
Definition true_divide (a b : Z) : float64 :=
  if b =? 0 then
    if a =? 0 then NaN else if 0 <? a then PosInf else NegInf
  else Finite (RN (of_int64 a / of_int64 b)).

(** [region_map.loc[region_map["nom"] == name]["geometry"].values[0]] *)
Definition first_geometry (region_map : list (GeoRow Geometry)) (name : pystr)
  : result Geometry :=
  match map geometry (filter (fun g => str_eqb (nom g) name) region_map) with
  | g :: _ => Ok g
  | [] => Raise IndexError
  end.

Definition plot_referendum_map
  (region_map : list (GeoRow Geometry))
  (referendum_result_by_regions : list ResultRow)
  : result (list (RenderedRow Geometry)) :=
  geoms <- mapM (fun row => first_geometry region_map (res_name_reg row))
                referendum_result_by_regions ;;
  Ok (map (fun '(g, row) =>
             mkRendered g row
               (true_divide (res_Choice_A row)
                            (add64 (res_Choice_B row) (res_Choice_A row))))
          (combine geoms referendum_result_by_regions)).

(** ** Notions used to state the properties *)

(** The name the loop of [merge_regions_and_departments] leaves in a row of
    region code [code] that held [name] before the loop: each region with
    that code overwrites it in turn. *)
Definition resolve_name (regions : list Region.t) (code name : pystr) : pystr :=
  fold_left (fun nm row =>
               if str_eqb code (Region.code row) then Region.name row else nm)
            regions name.

(** The code identifies the region. *)
Definition region_key (regions : list Region.t) : Prop :=
  forall r r', In r regions -> In r' regions ->
    Region.code r = Region.code r' -> Region.name r = Region.name r'.

Definition empty_area : AreaRow := mkArea [] [] [] [].

(** The merging loop of [merge_referendum_and_areas] at one ballot row. *)
Definition enrich (regions_and_departments : list AreaRow) (b : BallotRow)
  : EnrichedRow :=
  fold_left (fun r row => attach row r) regions_and_departments
            (mkEnriched b empty_area).

Definition mainland (b : BallotRow) : bool :=
  negb (isalpha (Department_code b)).

(** The same enriched row without its region code. *)
Definition erase_code_reg (r : EnrichedRow) : EnrichedRow :=
  let a := area r in
  mkEnriched (ballot r) (mkArea [] (name_reg a) (code_dep a) (name_dep a)).

(** A non-empty string of ASCII digits. *)
Definition all_digits (s : pystr) : bool :=
  match s with
  | [] => false
  | _ :: _ => forallb (fun c => ((48 <=? c) && (c <=? 57))%N) s
  end.

(** A department without region is reported, not given an empty name. *)
Definition unresolved_region_surfaced
  (regions : list Region.t) (departments : list Department.t) : Prop :=
  forall i d rec,
    nth_error departments i = Some d ->
    (forall r, In r regions -> Region.code r <> Department.region_code d) ->
    nth_error (merge_regions_and_departments regions departments) i = Some rec ->
    name_reg rec <> [].

(** Only the rows with a numeric department code are kept. *)
Definition only_numeric_survive
  (referendum : list BallotRow) (regions_and_departments : list AreaRow) : Prop :=
  forall r,
    In r (merge_referendum_and_areas referendum regions_and_departments) ->
    all_digits (normalize (Department_code (ballot r))) = true.

(** Every returned row with non-negative counts of positive sum has a ratio
    in [0, 1]. *)
Definition ratio_always_within_unit_interval
  (region_map : list (GeoRow Geometry)) (results : list ResultRow) : Prop :=
  forall out i row rd,
    plot_referendum_map region_map results = Ok out ->
    nth_error results i = Some row ->
    nth_error out i = Some rd ->
    0 <= res_Choice_A row -> 0 <= res_Choice_B row ->
    in_int64 (res_Choice_A row) -> in_int64 (res_Choice_B row) ->
    0 < res_Choice_A row + res_Choice_B row ->
    exists q, ratio rd = Finite q /\ (0 <= q <= 1)%Q.

(** A region without geometry is reported by name. *)
Definition unresolved_geometry_reported
  (region_map : list (GeoRow Geometry)) (results : list ResultRow) : Prop :=
  forall row,
    In row results ->
    (forall g, In g region_map -> nom g <> res_name_reg row) ->
    plot_referendum_map region_map results
    = Raise (UnresolvedReferenceError (res_name_reg row)).

(** The number a string of ASCII digits denotes in base ten. *)
Definition decimal_value (ds : list N) : Z :=
  fold_left (fun acc c => 10 * acc + Z.of_N (c - 48)) ds 0.

(** The [__main__] block between [load_data] and [plt.show]: the four
    transforms in sequence, on the three loaded tables and the geographic
    file. *)
Definition main
  (referendum : list BallotRow) (df_reg : list Region.t)
  (df_dep : list Department.t) (region_map : list (GeoRow Geometry))
  : result (list (RenderedRow Geometry)) :=
  let regions_and_departments := merge_regions_and_departments df_reg df_dep in
  let referendum_and_areas :=
    merge_referendum_and_areas referendum regions_and_departments in
  let referendum_results :=
    compute_referendum_result_by_regions referendum_and_areas in
  plot_referendum_map region_map referendum_results.

(** ** Strings and sorted keys *)

Lemma str_eqb_eq (s t : pystr) : str_eqb s t = true <-> s = t.
Proof.
  revert t; induction s as [|c s IH]; intros [|d t]; simpl;
    try (split; [discriminate | discriminate]); try tauto.
  rewrite andb_true_iff, N.eqb_eq, IH.
  split; [intros [-> ->]; reflexivity | intros [= -> ->]; auto].
Qed.

Lemma str_eqb_refl (s : pystr) : str_eqb s s = true.
Proof. apply str_eqb_eq; reflexivity. Qed.

Lemma str_eqb_neq (s t : pystr) : str_eqb s t = false <-> s <> t.
Proof.
  rewrite <- str_eqb_eq. destruct (str_eqb s t); split; congruence.
Qed.

Lemma str_compare_eq (s t : pystr) : str_compare s t = Eq <-> s = t.
Proof.
  revert t; induction s as [|c s IH]; intros [|d t]; simpl;
    try (split; discriminate); try tauto.
  destruct (N.compare_spec c d) as [-> | Hlt | Hgt].
  - rewrite IH. split; [intros -> | intros [= ->]]; reflexivity.
  - split; [discriminate | intros [= -> _]; lia].
  - split; [discriminate | intros [= -> _]; lia].
Qed.

Lemma str_compare_antisym (s t : pystr) :
  str_compare t s = CompOpp (str_compare s t).
Proof.
  revert t; induction s as [|c s IH]; intros [|d t]; simpl; auto.
  rewrite (N.compare_antisym c d).
  destruct (N.compare c d); simpl; auto.
Qed.

Lemma str_lt_irrefl (s : pystr) : ~ str_lt s s.
Proof.
  unfold str_lt. intros H.
  assert (E : str_compare s s = Eq) by (apply str_compare_eq; reflexivity).
  congruence.
Qed.

Lemma str_lt_trans (s t u : pystr) : str_lt s t -> str_lt t u -> str_lt s u.
Proof.
  unfold str_lt. revert t u.
  induction s as [|c s IH]; intros [|d t] [|e u]; simpl; try congruence.
  destruct (N.compare_spec c d) as [-> | Hcd | Hcd]; try discriminate.
  - destruct (N.compare e d) eqn:Hed; rewrite N.compare_antisym, Hed; simpl;
      try discriminate; eauto.
  - intros _.
    destruct (N.compare_spec d e) as [-> | Hde | Hde]; try discriminate;
      intros _.
    + apply N.compare_lt_iff in Hcd. rewrite Hcd. reflexivity.
    + assert (Hce : (c < e)%N) by lia.
      apply N.compare_lt_iff in Hce. rewrite Hce. reflexivity.
Qed.

Lemma In_insert_unique (k x : pystr) (l : list pystr) :
  In x (insert_unique k l) <-> x = k \/ In x l.
Proof.
  induction l as [|y l IH]; simpl.
  - intuition.
  - destruct (str_compare k y) eqn:E; simpl.
    + apply str_compare_eq in E. subst. intuition.
    + intuition.
    + rewrite IH. intuition.
Qed.

Lemma In_sorted_unique (x : pystr) (l : list pystr) :
  In x (sorted_unique l) <-> In x l.
Proof.
  induction l as [|y l IH]; simpl; [tauto|].
  rewrite In_insert_unique, IH. intuition.
Qed.

Lemma insert_unique_sorted (k : pystr) (l : list pystr) :
  StronglySorted str_lt l -> StronglySorted str_lt (insert_unique k l).
Proof.
  induction 1 as [|y l Hs IH Hall]; simpl.
  - repeat constructor.
  - destruct (str_compare k y) eqn:E.
    + constructor; assumption.
    + constructor; [constructor; assumption|].
      constructor; [exact E|].
      rewrite Forall_forall in *. intros z Hz.
      apply str_lt_trans with y; auto.
    + constructor; [assumption|].
      rewrite Forall_forall in *. intros z Hz.
      apply In_insert_unique in Hz. destruct Hz as [-> | Hz]; auto.
      unfold str_lt. rewrite str_compare_antisym, E. reflexivity.
Qed.

Lemma sorted_unique_sorted (l : list pystr) :
  StronglySorted str_lt (sorted_unique l).
Proof.
  induction l; simpl; [constructor | apply insert_unique_sorted; assumption].
Qed.

Lemma sorted_NoDup (l : list pystr) : StronglySorted str_lt l -> NoDup l.
Proof.
  induction 1 as [|y l Hs IH Hall]; constructor; auto.
  intros Hin. rewrite Forall_forall in Hall.
  exact (str_lt_irrefl y (Hall y Hin)).
Qed.

Lemma sorted_unique_NoDup (l : list pystr) : NoDup (sorted_unique l).
Proof. apply sorted_NoDup, sorted_unique_sorted. Qed.

(** ** int64 sums *)

Lemma wrap64_idem (a b : Z) : wrap64 (wrap64 a + b) = wrap64 (a + b).
Proof.
  unfold wrap64. f_equal.
  replace ((a + 2 ^ 63) mod 2 ^ 64 - 2 ^ 63 + b + 2 ^ 63)
    with ((a + 2 ^ 63) mod 2 ^ 64 + b) by ring.
  replace (a + b + 2 ^ 63) with ((a + 2 ^ 63) + b) by ring.
  rewrite Zplus_mod_idemp_l. reflexivity.
Qed.

Lemma wrap64_small (z : Z) : in_int64 z -> wrap64 z = z.
Proof.
  unfold in_int64, wrap64. intros H.
  rewrite Z.mod_small; lia.
Qed.

Lemma wrap64_range (z : Z) : in_int64 (wrap64 z).
Proof.
  unfold in_int64, wrap64.
  pose proof (Z.mod_pos_bound (z + 2 ^ 63) (2 ^ 64) ltac:(lia)). lia.
Qed.

Lemma fold_add64 (l : list Z) (a : Z) :
  fold_left add64 l (wrap64 a) = wrap64 (a + zsum l).
Proof.
  revert a; induction l as [|x l IH]; intros a; simpl.
  - f_equal; lia.
  - unfold add64 at 2. rewrite wrap64_idem, IH. f_equal; lia.
Qed.

Lemma sum64_zsum (l : list Z) : sum64 l = wrap64 (zsum l).
Proof.
  unfold sum64. change 0 with (wrap64 0) at 1. apply fold_add64.
Qed.

(** ** Row-wise reading of the update loops *)

Lemma fold_left_map_rows {A B} (f : B -> A -> A) (rows : list B) (df : list A) :
  fold_left (fun df row => map (f row) df) rows df
  = map (fun x => fold_left (fun x row => f row x) rows x) df.
Proof.
  revert df; induction rows as [|row rows IH]; intros df; simpl.
  - symmetry; apply map_id.
  - rewrite IH, map_map. reflexivity.
Qed.

Lemma set_name_reg_row (regions : list Region.t) (c n cd nd : pystr) :
  fold_left (fun rec row =>
               if str_eqb (code_reg rec) (Region.code row)
               then mkArea (code_reg rec) (Region.name row)
                           (code_dep rec) (name_dep rec)
               else rec)
            regions (mkArea c n cd nd)
  = mkArea c (resolve_name regions c n) cd nd.
Proof.
  revert n; induction regions as [|row regions IH]; intros n; simpl; auto.
  destruct (str_eqb c (Region.code row)); simpl; apply IH.
Qed.

Lemma merge_regions_and_departments_rows regions departments :
  merge_regions_and_departments regions departments
  = map (fun d =>
           mkArea (Department.region_code d)
                  (resolve_name regions (Department.region_code d) [])
                  (Department.code d) (Department.name d))
        departments.
Proof.
  unfold merge_regions_and_departments, set_name_reg.
  rewrite fold_left_map_rows, map_map.
  apply map_ext. intros d. apply set_name_reg_row.
Qed.

Lemma resolve_name_none regions code name :
  (forall r, In r regions -> Region.code r <> code) ->
  resolve_name regions code name = name.
Proof.
  unfold resolve_name.
  revert name; induction regions as [|row regions IH]; intros name H; simpl; auto.
  destruct (str_eqb code (Region.code row)) eqn:E.
  - apply str_eqb_eq in E. exfalso. apply (H row); simpl; auto.
  - apply IH. intros r Hr. apply H; simpl; auto.
Qed.

Lemma resolve_name_cases regions code name :
  resolve_name regions code name = name
  \/ exists r, In r regions /\ Region.code r = code
              /\ resolve_name regions code name = Region.name r.
Proof.
  unfold resolve_name.
  revert name; induction regions as [|row regions IH]; intros name; simpl; auto.
  destruct (str_eqb code (Region.code row)) eqn:E.
  - apply str_eqb_eq in E.
    destruct (IH (Region.name row)) as [H | (r & Hr & Hc & Hn)].
    + right. exists row. auto.
    + right. exists r. auto.
  - destruct (IH name) as [H | (r & Hr & Hc & Hn)]; auto.
    right. exists r. auto.
Qed.

Lemma resolve_name_some regions code name r0 :
  In r0 regions -> Region.code r0 = code ->
  exists r, In r regions /\ Region.code r = code
            /\ resolve_name regions code name = Region.name r.
Proof.
  unfold resolve_name.
  revert name; induction regions as [|row regions IH]; intros name Hin Hc;
    simpl in *; [tauto|].
  destruct Hin as [-> | Hin].
  - rewrite <- Hc, str_eqb_refl.
    destruct (resolve_name_cases regions (Region.code r0) (Region.name r0))
      as [H | (r & Hr & Hc' & Hn)]; unfold resolve_name in *.
    + exists r0. rewrite H. auto.
    + exists r. rewrite Hn. auto.
  - destruct (IH (if str_eqb code (Region.code row)
                  then Region.name row else name) Hin Hc)
      as (r & Hr & Hc' & Hn).
    exists r. auto.
Qed.

(** ** merge_regions_and_departments *)

(** C3: the output has one record per Department row, in the order of the
    Department table, carrying the department's region code, code and name.
    When some Region has the department's region code, the record's name_reg
    is the name of a Region with that code; when the code identifies the
    Region, it is the name of every Region with that code. *)
Theorem merge_regions_and_departments_join regions departments :
  List.length (merge_regions_and_departments regions departments)
  = List.length departments
  /\ forall i d,
      nth_error departments i = Some d ->
      exists rec,
        nth_error (merge_regions_and_departments regions departments) i = Some rec
        /\ code_reg rec = Department.region_code d
        /\ code_dep rec = Department.code d
        /\ name_dep rec = Department.name d
        /\ ((exists r, In r regions /\ Region.code r = Department.region_code d) ->
            exists r, In r regions
                      /\ Region.code r = Department.region_code d
                      /\ name_reg rec = Region.name r)
        /\ (region_key regions ->
            forall r, In r regions ->
                      Region.code r = Department.region_code d ->
                      name_reg rec = Region.name r).
Proof.
  rewrite merge_regions_and_departments_rows.
  split; [apply length_map|].
  intros i d Hd.
  eexists. split; [rewrite nth_error_map, Hd; reflexivity|].
  simpl. repeat split.
  - intros (r0 & Hin & Hc). exact (resolve_name_some _ _ [] r0 Hin Hc).
  - intros Hkey r Hin Hc.
    destruct (resolve_name_some _ _ [] r Hin Hc) as (r' & Hin' & Hc' & ->).
    apply Hkey; congruence.
Qed.

(** C7 (as the code behaves): a Department row whose region code is the code
    of no Region yields, without any error, the record with the
    department's region code, code and name and the empty string as
    name_reg. *)
Theorem merge_regions_and_departments_unresolved regions departments i d :
  nth_error departments i = Some d ->
  (forall r, In r regions -> Region.code r <> Department.region_code d) ->
  nth_error (merge_regions_and_departments regions departments) i
  = Some (mkArea (Department.region_code d) []
                 (Department.code d) (Department.name d)).
Proof.
  intros Hd Hnone.
  rewrite merge_regions_and_departments_rows, nth_error_map, Hd. simpl.
  rewrite resolve_name_none; auto.
Qed.

(** ** merge_referendum_and_areas *)

Lemma isin_In (x : pystr) (l : list pystr) : isin x l = true <-> In x l.
Proof.
  unfold isin. rewrite existsb_exists. split.
  - intros (y & Hy & E). apply str_eqb_eq in E. subst. exact Hy.
  - intros H. exists x. split; [exact H | apply str_eqb_refl].
Qed.

Lemma filter_dep_codes (referendum : list BallotRow) :
  filter (fun r =>
            isin (Department_code r)
                 (filter (fun el => negb (isalpha el))
                         (sorted_unique (map Department_code referendum))))
         referendum
  = filter mainland referendum.
Proof.
  apply filter_ext_in. intros b Hb. unfold mainland.
  apply eq_true_iff_eq. rewrite isin_In, filter_In, In_sorted_unique.
  split; [tauto|]. intros H. split; [|exact H].
  apply in_map. exact Hb.
Qed.

Lemma merge_referendum_and_areas_rows referendum regions_and_departments :
  merge_referendum_and_areas referendum regions_and_departments
  = map (enrich regions_and_departments) (filter mainland referendum).
Proof.
  unfold merge_referendum_and_areas.
  rewrite filter_dep_codes, fold_left_map_rows, map_map. reflexivity.
Qed.

Lemma ballot_attach_rows rows r :
  ballot (fold_left (fun r row => attach row r) rows r) = ballot r.
Proof.
  revert r; induction rows as [|row rows IH]; intros r; simpl; auto.
  rewrite IH. reflexivity.
Qed.

Lemma ballot_enrich rows b : ballot (enrich rows b) = b.
Proof. unfold enrich. rewrite ballot_attach_rows. reflexivity. Qed.

Lemma attach_unmatched row r :
  normalize (code_dep row) <> Department_code (ballot r) ->
  attach row r = r.
Proof.
  intros H. unfold attach.
  assert (E : str_eqb (Department_code (ballot r)) (normalize (code_dep row))
              = false) by (apply str_eqb_neq; congruence).
  rewrite E. destruct r as [b [? ? ? ?]]. reflexivity.
Qed.

Lemma enrich_unmatched rows b :
  (forall row, In row rows -> normalize (code_dep row) <> Department_code b) ->
  enrich rows b = mkEnriched b empty_area.
Proof.
  unfold enrich. generalize empty_area as a.
  induction rows as [|row rows IH]; intros a H; simpl; auto.
  rewrite attach_unmatched by (apply H; simpl; auto).
  apply IH. intros row' Hr. apply H; simpl; auto.
Qed.

Lemma merge_referendum_and_areas_ballots referendum regions_and_departments :
  map ballot (merge_referendum_and_areas referendum regions_and_departments)
  = filter mainland referendum.
Proof.
  rewrite merge_referendum_and_areas_rows, map_map.
  rewrite (map_ext _ (fun b => b)) by apply ballot_enrich.
  apply map_id.
Qed.

Lemma filter_mainland_idem (referendum : list BallotRow) :
  filter mainland (filter mainland referendum) = filter mainland referendum.
Proof.
  induction referendum as [|b l IH]; simpl; auto.
  destruct (mainland b) eqn:E; simpl; rewrite ?E, IH; reflexivity.
Qed.

(** C2: a ballot row whose department code is purely alphabetic is absent
    from the output of merge_referendum_and_areas, and its counts reach no
    row of compute_referendum_result_by_regions: two ballot tables with the
    same non-alphabetic rows have the same merged table and the same
    results, in particular the table and the table without its alphabetic
    rows. *)
Theorem alphabetic_rows_excluded referendum regions_and_departments :
  (forall b, isalpha (Department_code b) = true ->
     ~ exists r,
         In r (merge_referendum_and_areas referendum regions_and_departments)
         /\ ballot r = b)
  /\ (forall referendum',
        filter mainland referendum' = filter mainland referendum ->
        merge_referendum_and_areas referendum' regions_and_departments
        = merge_referendum_and_areas referendum regions_and_departments
        /\ compute_referendum_result_by_regions
             (merge_referendum_and_areas referendum' regions_and_departments)
           = compute_referendum_result_by_regions
               (merge_referendum_and_areas referendum regions_and_departments))
  /\ compute_referendum_result_by_regions
       (merge_referendum_and_areas (filter mainland referendum)
                                   regions_and_departments)
     = compute_referendum_result_by_regions
         (merge_referendum_and_areas referendum regions_and_departments).
Proof.
  assert (Hsame : forall referendum',
             filter mainland referendum' = filter mainland referendum ->
             merge_referendum_and_areas referendum' regions_and_departments
             = merge_referendum_and_areas referendum regions_and_departments).
  { intros referendum' H.
    rewrite !merge_referendum_and_areas_rows, H. reflexivity. }
  split; [|split].
  - intros b Hb (r & Hr & <-).
    assert (Hin : In (ballot r) (filter mainland referendum)).
    { rewrite <- (merge_referendum_and_areas_ballots
                    referendum regions_and_departments).
      apply in_map. exact Hr. }
    apply filter_In in Hin. destruct Hin as [_ Hm].
    unfold mainland in Hm. rewrite Hb in Hm. discriminate.
  - intros referendum' H. rewrite (Hsame _ H). auto.
  - rewrite (Hsame _ (filter_mainland_idem referendum)). reflexivity.
Qed.

(** C8 (as the code behaves): the ballot rows of the output of
    merge_referendum_and_areas are exactly the input rows whose department
    code is not purely alphabetic, in input order; so every output row has
    a department code that is not purely alphabetic, and every input row
    with such a code, numeric or not, is kept. *)
Theorem merge_referendum_and_areas_keeps_non_alphabetic
  referendum regions_and_departments :
  map ballot (merge_referendum_and_areas referendum regions_and_departments)
  = filter (fun b => negb (isalpha (Department_code b))) referendum
  /\ (forall r,
        In r (merge_referendum_and_areas referendum regions_and_departments) ->
        isalpha (Department_code (ballot r)) = false)
  /\ (forall b,
        In b referendum -> isalpha (Department_code b) = false ->
        exists r,
          In r (merge_referendum_and_areas referendum regions_and_departments)
          /\ ballot r = b).
Proof.
  pose proof (merge_referendum_and_areas_ballots
                referendum regions_and_departments) as Hb.
  split; [exact Hb | split].
  - intros r Hr.
    assert (Hin : In (ballot r) (filter mainland referendum))
      by (rewrite <- Hb; apply in_map; exact Hr).
    apply filter_In in Hin. destruct Hin as [_ Hm].
    unfold mainland in Hm. apply negb_true_iff in Hm. exact Hm.
  - intros b Hin Ha.
    assert (Hf : In b (filter mainland referendum)).
    { apply filter_In. split; [exact Hin|].
      unfold mainland. rewrite Ha. reflexivity. }
    rewrite <- Hb in Hf. apply in_map_iff in Hf.
    destruct Hf as (r & E & Hr). exists r. auto.
Qed.

(** ** compute_referendum_result_by_regions *)

Lemma enumerate_map {A B C} (F : nat -> A -> B) (g : B -> C) (G : A -> C)
      (l : list A) (a : nat) :
  (forall i k, g (F i k) = G k) ->
  map g (map (fun '(i, k) => F i k) (combine (seq a (List.length l)) l))
  = map G l.
Proof.
  intros H. revert a; induction l as [|k l IH]; intros a; simpl; auto.
  rewrite H, IH. reflexivity.
Qed.

Lemma enumerate_index {A B} (F : nat -> A -> B) (g : B -> Z) (l : list A)
      (a : nat) :
  (forall i k, g (F i k) = Z.of_nat i) ->
  map g (map (fun '(i, k) => F i k) (combine (seq a (List.length l)) l))
  = map Z.of_nat (seq a (List.length l)).
Proof.
  intros H. revert a; induction l as [|k l IH]; intros a; simpl; auto.
  rewrite H, IH. reflexivity.
Qed.

Lemma enumerate_In {A B} (F : nat -> A -> B) (l : list A) (a : nat) (k : A) :
  In k l ->
  exists i,
    In (F i k) (map (fun '(i, k) => F i k) (combine (seq a (List.length l)) l)).
Proof.
  revert a; induction l as [|x l IH]; intros a Hin; simpl in *; [tauto|].
  destruct Hin as [-> | Hin].
  - exists a. auto.
  - destruct (IH (S a) Hin) as (i & Hi). exists i. auto.
Qed.

Lemma compute_names df :
  map res_name_reg (compute_referendum_result_by_regions df)
  = sorted_unique (map region_of df).
Proof.
  unfold compute_referendum_result_by_regions.
  rewrite (enumerate_map _ res_name_reg (fun k => k)); [apply map_id | auto].
Qed.

Lemma compute_index df :
  map res_index (compute_referendum_result_by_regions df)
  = map Z.of_nat
        (seq 0 (List.length (compute_referendum_result_by_regions df))).
Proof.
  unfold compute_referendum_result_by_regions.
  rewrite length_map, length_combine, length_seq, Nat.min_id.
  apply enumerate_index. auto.
Qed.


Lemma zsum_map_add {A} (f g : A -> Z) (l : list A) :
  zsum (map (fun k => f k + g k) l) = zsum (map f l) + zsum (map g l).
Proof. induction l; simpl; lia. Qed.

Lemma zsum_map_zero {A} (l : list A) : zsum (map (fun _ => 0) l) = 0.
Proof. induction l; simpl; lia. Qed.

(** Only the group of its own key counts a row. *)
Lemma zsum_indicator (keys : list pystr) (key : pystr) (v : Z) :
  NoDup keys -> In key keys ->
  zsum (map (fun k => if str_eqb key k then v else 0) keys) = v.
Proof.
  induction 1 as [|x keys Hx Hnd IH]; simpl; [tauto|].
  intros [-> | Hin].
  - rewrite str_eqb_refl.
    rewrite (map_ext_in _ (fun _ => 0)), zsum_map_zero; [lia|].
    intros k Hk. destruct (str_eqb key k) eqn:E; auto.
    apply str_eqb_eq in E. subst. contradiction.
  - destruct (str_eqb key x) eqn:E.
    + apply str_eqb_eq in E. subst. contradiction.
    + rewrite IH; auto.
Qed.

(** The groups partition the table. *)
Lemma zsum_groups (f : BallotRow -> Z) (keys : list pystr) df :
  NoDup keys ->
  (forall r, In r df -> In (region_of r) keys) ->
  zsum (map (fun key => zsum (column f (group key df))) keys)
  = zsum (column f df).
Proof.
  intros Hnd. induction df as [|r df IH]; intros Hin; simpl.
  - apply zsum_map_zero.
  - rewrite <- IH by (intros r' Hr'; apply Hin; simpl; auto).
    assert (Hr : zsum (map (fun k => if str_eqb (region_of r) k
                                     then f (ballot r) else 0) keys)
                 = f (ballot r))
      by (apply zsum_indicator; [exact Hnd | apply Hin; simpl; auto]).
    rewrite <- Hr at 1.
    rewrite <- zsum_map_add. f_equal. apply map_ext. intros k.
    unfold group. simpl. destruct (str_eqb (region_of r) k); simpl; lia.
Qed.

Lemma wrap64_zsum_map {A} (h : A -> Z) (l : list A) :
  wrap64 (zsum (map (fun k => wrap64 (h k)) l)) = wrap64 (zsum (map h l)).
Proof.
  induction l as [|k l IH]; simpl; auto.
  rewrite wrap64_idem.
  rewrite (Z.add_comm (h k)), <- wrap64_idem, IH, wrap64_idem.
  f_equal; lia.
Qed.

Lemma group_keys_cover df r :
  In r df -> In (region_of r) (sorted_unique (map region_of df)).
Proof. intros H. apply In_sorted_unique, in_map, H. Qed.

(** Conservation of a column total, in int64 arithmetic. *)
Lemma sum64_groups (f : BallotRow -> Z) df :
  sum64 (map (fun key => sum64 (column f (group key df)))
             (sorted_unique (map region_of df)))
  = sum64 (column f df).
Proof.
  rewrite !sum64_zsum.
  rewrite (map_ext _ (fun key => wrap64 (zsum (column f (group key df)))))
    by (intros; apply sum64_zsum).
  rewrite wrap64_zsum_map, zsum_groups; auto using sorted_unique_NoDup.
  apply group_keys_cover.
Qed.



Lemma region_of_erase r : region_of (erase_code_reg r) = region_of r.
Proof. reflexivity. Qed.

Lemma group_erase key df :
  group key (map erase_code_reg df) = map erase_code_reg (group key df).
Proof.
  unfold group. induction df as [|r df IH]; simpl; auto.
  rewrite region_of_erase.
  destruct (str_eqb (region_of r) key); simpl; rewrite IH; reflexivity.
Qed.

Lemma column_erase f df : column f (map erase_code_reg df) = column f df.
Proof. unfold column. rewrite map_map. reflexivity. Qed.

(** C6 (what the code does): the index of the output is the row position
    0 .. n-1, and the output is the same when the region code is erased
    from every input row, so no output row carries the region code of its
    group; on the single enriched row of region code 84 and region name
    Auvergne-Rhône-Alpes the output is the single row of index 0 with the
    name and the five counts. *)
Theorem result_ignores_code_reg :
  (forall df,
     map res_index (compute_referendum_result_by_regions df)
     = map Z.of_nat
           (seq 0 (List.length (compute_referendum_result_by_regions df)))
     /\ compute_referendum_result_by_regions (map erase_code_reg df)
        = compute_referendum_result_by_regions df)
  /\ compute_referendum_result_by_regions
       [ex_enriched (lit "84") auvergne_rhone_alpes]
     = [mkResult 0 auvergne_rhone_alpes 100 20 5 40 35].
Proof.
  split; [|reflexivity].
  intros df. split; [apply compute_index|].
  unfold compute_referendum_result_by_regions.
  rewrite map_map.
  rewrite (map_ext (fun r => region_of (erase_code_reg r)) region_of)
    by apply region_of_erase.
  apply map_ext. intros [i key].
  rewrite group_erase, !column_erase. reflexivity.
Qed.

Lemma compute_has_key df key :
  In key (map region_of df) ->
  exists i,
    In (let g := group key df in
        mkResult (Z.of_nat i) key
                 (sum64 (column Registered g))
                 (sum64 (column Abstentions g))
                 (sum64 (column Null g))
                 (sum64 (column Choice_A g))
                 (sum64 (column Choice_B g)))
       (compute_referendum_result_by_regions df).
Proof.
  intros H. apply In_sorted_unique in H.
  unfold compute_referendum_result_by_regions.
  exact (enumerate_In _ _ 0%nat key H).
Qed.

(** C10: a ballot row that passes the non-alphabetic filter and matches no
    record of regions_and_departments under the normalized comparison is
    kept by merge_referendum_and_areas with code_reg, name_reg, code_dep
    and name_dep all empty, and compute_referendum_result_by_regions has a
    row for the empty region name whose five counts are the int64 sums
    over the rows of empty region name, this row among them. *)
Theorem unmatched_rows_kept_empty referendum regions_and_departments b :
  In b referendum ->
  isalpha (Department_code b) = false ->
  (forall row, In row regions_and_departments ->
               normalize (code_dep row) <> Department_code b) ->
  let df := merge_referendum_and_areas referendum regions_and_departments in
  let g := group [] df in
  In (mkEnriched b (mkArea [] [] [] [])) df
  /\ In (mkEnriched b (mkArea [] [] [] [])) g
  /\ exists i,
       In (mkResult i []
                    (sum64 (column Registered g))
                    (sum64 (column Abstentions g))
                    (sum64 (column Null g))
                    (sum64 (column Choice_A g))
                    (sum64 (column Choice_B g)))
          (compute_referendum_result_by_regions df).
Proof.
  intros Hin Ha Hnone df g.
  assert (Hdf : In (mkEnriched b (mkArea [] [] [] [])) df).
  { subst df. rewrite merge_referendum_and_areas_rows.
    apply in_map_iff. exists b. split.
    - apply enrich_unmatched. exact Hnone.
    - apply filter_In. split; [exact Hin|].
      unfold mainland. rewrite Ha. reflexivity. }
  split; [exact Hdf | split].
  - subst g. unfold group. apply filter_In. split; [exact Hdf | reflexivity].
  - destruct (compute_has_key df []) as (i & Hi).
    + change [] with (region_of (mkEnriched b (mkArea [] [] [] []))).
      apply in_map. exact Hdf.
    + exists (Z.of_nat i). exact Hi.
Qed.

(** ** plot_referendum_map *)

Lemma first_geometry_missing region_map name :
  (forall g, In g region_map -> nom g <> name) ->
  first_geometry region_map name = Raise IndexError.
Proof.
  intros H. unfold first_geometry.
  replace (filter (fun g => str_eqb (nom g) name) region_map) with (@nil (GeoRow Geometry));
    [reflexivity|].
  induction region_map as [|g l IH]; simpl; auto.
  assert (E : str_eqb (nom g) name = false)
    by (apply str_eqb_neq, H; simpl; auto).
  rewrite E. apply IH. intros g' Hg'. apply H; simpl; auto.
Qed.

Lemma first_geometry_raises region_map name e :
  first_geometry region_map name = Raise e -> e = IndexError.
Proof.
  unfold first_geometry.
  destruct (map geometry _); intros [=]; auto.
Qed.

Lemma mapM_raises {A B} (f : A -> result B) (l : list A) (a : A) :
  (forall x e, f x = Raise e -> e = IndexError) ->
  In a l -> f a = Raise IndexError ->
  mapM f l = Raise IndexError.
Proof.
  intros Honly. induction l as [|x l IH]; simpl; [tauto|].
  intros Hin Ha.
  destruct (f x) as [b|e] eqn:Ex; simpl.
  - destruct Hin as [-> | Hin]; [congruence|].
    rewrite (IH Hin Ha). reflexivity.
  - rewrite (Honly x e Ex). reflexivity.
Qed.

Lemma mapM_rows {A B C} (f : A -> result B) (F : B * A -> C)
      (l : list A) (bs : list B) :
  mapM f l = Ok bs ->
  List.length (map F (combine bs l)) = List.length l
  /\ forall i a,
      nth_error l i = Some a ->
      exists b, f a = Ok b /\ nth_error (map F (combine bs l)) i = Some (F (b, a)).
Proof.
  revert bs; induction l as [|x l IH]; intros bs; simpl.
  - intros [= <-]. split; [reflexivity|]. intros [|i] a; discriminate.
  - destruct (f x) as [b|e] eqn:Ex; simpl; [|discriminate].
    destruct (mapM f l) as [bs'|e] eqn:El; simpl; [|discriminate].
    intros [= <-]. destruct (IH bs' eq_refl) as [Hlen Hnth].
    split; [simpl; congruence|].
    intros [|i] a; simpl.
    + intros [= <-]. exists b. auto.
    + apply Hnth.
Qed.

(** C9 (as the code behaves): when some row of the results has a region
    name that is the display name of no region of the geographic source,
    plot_referendum_map raises the IndexError of the first-match access
    [.values[0]] and returns no table. *)
Theorem plot_referendum_map_missing_geometry region_map results row :
  In row results ->
  (forall g, In g region_map -> nom g <> res_name_reg row) ->
  plot_referendum_map region_map results = Raise IndexError.
Proof.
  intros Hin Hnone. unfold plot_referendum_map.
  rewrite (mapM_raises _ results row); auto.
  - intros x e. apply first_geometry_raises.
  - apply first_geometry_missing. exact Hnone.
Qed.

Lemma RN_zero : RN 0 == 0.
Proof. apply (RN_exact 0). simpl. lia. Qed.

Lemma RN_one : RN 1 == 1.
Proof. apply (RN_exact 1). simpl. lia. Qed.

Lemma of_int64_monotone (a b : Z) : a <= b -> (of_int64 a <= of_int64 b)%Q.
Proof.
  intros H. unfold of_int64. apply RN_monotone. rewrite <- Zle_Qle. exact H.
Qed.

(** The float64 quotient of two counts, the first at most the second. *)
Lemma ratio_bounds (a s : Z) :
  0 <= a -> a <= s -> 0 < s ->
  (0 <= RN (of_int64 a / of_int64 s) <= 1)%Q.
Proof.
  intros Ha Has Hs.
  assert (H0 : (0 <= of_int64 a)%Q).
  { rewrite <- RN_zero. apply (of_int64_monotone 0 a Ha). }
  assert (H1 : (1 <= of_int64 s)%Q).
  { rewrite <- RN_one. apply (of_int64_monotone 1 s). lia. }
  assert (Hle : (of_int64 a <= of_int64 s)%Q) by (apply of_int64_monotone; exact Has).
  assert (Hpos : (0 < of_int64 s)%Q).
  { apply Qlt_le_trans with 1%Q; [reflexivity | exact H1]. }
  split.
  - rewrite <- RN_zero. apply RN_monotone.
    apply Qle_shift_div_l; [exact Hpos|]. rewrite Qmult_0_l. exact H0.
  - rewrite <- RN_one. apply RN_monotone.
    apply Qle_shift_div_r; [exact Hpos|]. rewrite Qmult_1_l. exact Hle.
Qed.

Lemma ratio_exact_operands (a s : Z) :
  0 <= a -> a <= s -> s <= 2 ^ 53 ->
  RN (of_int64 a / of_int64 s) == RN (inject_Z a / inject_Z s).
Proof.
  intros Ha Has Hs. apply RN_proper. unfold of_int64.
  rewrite (RN_exact a), (RN_exact s) by lia. reflexivity.
Qed.

(** C5 (as the code behaves): every row of the table returned by
    plot_referendum_map carries, next to its RegionResult row, the ratio
    computed as the float64 quotient Choice A / (Choice B + Choice A), the
    sum being an int64 sum.  When both counts are non-negative and their
    sum is positive and below 2^63, so that the int64 sum does not wrap
    around, the denominator is the sum of the two counts, the ratio is the
    finite float obtained by rounding the quotient of the two converted
    counts, and it lies in [0, 1]; when the sum is at most 2^53 both
    conversions are exact and the ratio is the rounding of the exact
    quotient. *)
Theorem ratio_within_unit_interval region_map results out :
  plot_referendum_map region_map results = Ok out ->
  List.length out = List.length results
  /\ forall i row,
      nth_error results i = Some row ->
      exists rd,
        nth_error out i = Some rd
        /\ rd_result rd = row
        /\ ratio rd = true_divide (res_Choice_A row)
                                 (add64 (res_Choice_B row) (res_Choice_A row))
        /\ (let a := res_Choice_A row in
            let b := res_Choice_B row in
            0 <= a -> 0 <= b -> 0 < a + b -> a + b < 2 ^ 63 ->
            add64 b a = a + b
            /\ ratio rd = Finite (RN (of_int64 a / of_int64 (a + b)))
            /\ (0 <= RN (of_int64 a / of_int64 (a + b)) <= 1)%Q
            /\ (a + b <= 2 ^ 53 ->
                RN (of_int64 a / of_int64 (a + b))
                == RN (inject_Z a / inject_Z (a + b)))).
Proof.
  unfold plot_referendum_map.
  destruct (mapM _ results) as [geoms|e] eqn:E; simpl; [|discriminate].
  intros [= <-].
  destruct (mapM_rows _
              (fun '(g, row) =>
                 mkRendered g row
                   (true_divide (res_Choice_A row)
                      (add64 (res_Choice_B row) (res_Choice_A row))))
              _ _ E) as [Hlen Hnth].
  split; [exact Hlen|].
  intros i row Hrow. destruct (Hnth i row Hrow) as (g & _ & Hi).
  eexists. split; [exact Hi|]. simpl.
  split; [reflexivity | split; [reflexivity|]].
  intros Ha Hb Hpos Hfit.
  assert (Hsum : add64 (res_Choice_B row) (res_Choice_A row)
                 = res_Choice_A row + res_Choice_B row).
  { unfold add64. rewrite wrap64_small; [lia | unfold in_int64; lia]. }
  split; [exact Hsum | split; [|split]].
  - rewrite Hsum. unfold true_divide.
    destruct (Z.eqb_spec (res_Choice_A row + res_Choice_B row) 0); [lia|].
    reflexivity.
  - apply ratio_bounds; lia.
  - intros Hs. apply ratio_exact_operands; lia.
Qed.

(** ** End to end *)

(** C1: on the Region table with the single row 84 / Auvergne-Rhône-Alpes,
    the Department table with the single row 01 / 84 / Ain and a single
    ballot row of department code 1 with counts 100, 20, 5, 40, 35, the three
    transforms in sequence produce exactly one result row, of region name
    Auvergne-Rhône-Alpes and counts 100, 20, 5, 40, 35 (department code 01
    is compared as 1); with a geometry of that name, plot_referendum_map
    gives that row the ratio 40/75 rounded to float64. *)
Theorem end_to_end_example
  (dep_name town_name geo : pystr) (town_code : Z) (g : Geometry) :
  let referendum :=
    [mkBallot (lit "1") dep_name town_code town_name 100 20 5 40 35] in
  let areas := merge_regions_and_departments ex_regions ex_departments in
  let enriched := merge_referendum_and_areas referendum areas in
  let results := compute_referendum_result_by_regions enriched in
  map area enriched
  = [mkArea (lit "84") auvergne_rhone_alpes (lit "01") (lit "Ain")]
  /\ results = [mkResult 0 auvergne_rhone_alpes 100 20 5 40 35]
  /\ exists q,
       plot_referendum_map [mkGeo geo auvergne_rhone_alpes g] results
       = Ok [mkRendered g (mkResult 0 auvergne_rhone_alpes 100 20 5 40 35)
                        (Finite q)]
       /\ q == RN (40 # 75).
Proof.
  intros referendum areas enriched results.
  split; [reflexivity | split; [reflexivity|]].
  exists (RN (of_int64 40 / of_int64 75)). split; [reflexivity|].
  rewrite ratio_exact_operands by lia.
  apply RN_proper. reflexivity.
Qed.

(** ** The normalization of department codes *)

Lemma digit_cases (c : N) :
  ((48 <=? c) && (c <=? 57))%N = true ->
  (c = 48 \/ c = 49 \/ c = 50 \/ c = 51 \/ c = 52
   \/ c = 53 \/ c = 54 \/ c = 55 \/ c = 56 \/ c = 57)%N.
Proof.
  rewrite andb_true_iff, !N.leb_le. lia.
Qed.

Lemma to_ascii_digits (ds : list N) :
  forallb (fun c => ((48 <=? c) && (c <=? 57))%N) ds = true ->
  map to_ascii ds = ds.
Proof.
  induction ds as [|c ds IH]; simpl; auto.
  rewrite andb_true_iff. intros [Hc Hds].
  rewrite (IH Hds). f_equal.
  unfold to_ascii.
  destruct (digit_cases c Hc) as [-> | [-> | [-> | [-> | [-> | [-> | [-> | [-> | [-> | ->]]]]]]]]];
    reflexivity.
Qed.

Lemma scan_digits_run (ds : list N) (acc : Z) (p : N) :
  forallb (fun c => ((48 <=? c) && (c <=? 57))%N) ds = true ->
  p <> 95%N ->
  scan_digits acc (Some p) ds
  = Some (fold_left (fun acc c => 10 * acc + Z.of_N (c - 48)) ds acc, []).
Proof.
  revert acc p; induction ds as [|c ds IH]; intros acc p Hds Hp; simpl.
  - destruct (N.eqb_spec p 95); [contradiction | reflexivity].
  - simpl in Hds. apply andb_true_iff in Hds. destruct Hds as [Hc Hds].
    assert (Hc95 : (c =? 95)%N = false).
    { apply N.eqb_neq. apply andb_true_iff in Hc.
      rewrite !N.leb_le in Hc. lia. }
    rewrite Hc95. unfold digit_value. rewrite Hc.
    apply IH; [exact Hds|]. apply N.eqb_neq. exact Hc95.
Qed.

Lemma scan_digits_start (ds : list N) :
  all_digits ds = true ->
  scan_digits 0 None ds = Some (decimal_value ds, []).
Proof.
  destruct ds as [|c ds]; [discriminate|].
  unfold all_digits, decimal_value. simpl.
  rewrite andb_true_iff. intros [Hc Hds].
  assert (Hc95 : (c =? 95)%N = false).
  { apply N.eqb_neq. apply andb_true_iff in Hc.
    rewrite !N.leb_le in Hc. lia. }
  rewrite Hc95. unfold digit_value. rewrite Hc.
  apply scan_digits_run; [exact Hds|]. apply N.eqb_neq. exact Hc95.
Qed.

(** [int] of a non-empty string of ASCII digits. *)
Lemma py_int_digits (ds : list N) :
  all_digits ds = true -> py_int ds = Some (decimal_value ds).
Proof.
  intros H. unfold py_int.
  assert (Hall : forallb (fun c => ((48 <=? c) && (c <=? 57))%N) ds = true)
    by (destruct ds; [discriminate | exact H]).
  rewrite (to_ascii_digits ds Hall).
  pose proof (scan_digits_start ds H) as Hscan.
  destruct ds as [|c ds]; [discriminate|].
  simpl in Hall. apply andb_true_iff in Hall. destruct Hall as [Hc _].
  destruct (digit_cases c Hc) as [-> | [-> | [-> | [-> | [-> | [-> | [-> | [-> | [-> | ->]]]]]]]]];
    cbn [skip_spaces is_space N.leb N.eqb N.compare Pos.compare Pos.compare_cont
         Pos.eqb andb orb];
    rewrite Hscan; cbn [skip_spaces]; f_equal; lia.
Qed.

(** [int] of a minus sign followed by ASCII digits. *)
Lemma py_int_minus_digits (ds : list N) :
  all_digits ds = true -> py_int (45%N :: ds) = Some (- decimal_value ds).
Proof.
  intros H. unfold py_int.
  assert (Hall : forallb (fun c => ((48 <=? c) && (c <=? 57))%N) ds = true)
    by (destruct ds; [discriminate | exact H]).
  cbn [map]. rewrite (to_ascii_digits ds Hall).
  change (to_ascii 45) with 45%N.
  pose proof (scan_digits_start ds H) as Hscan.
  destruct ds as [|c ds]; [discriminate|].
  simpl in Hall. apply andb_true_iff in Hall. destruct Hall as [Hc _].
  destruct (digit_cases c Hc) as [-> | [-> | [-> | [-> | [-> | [-> | [-> | [-> | [-> | ->]]]]]]]]];
    cbn [skip_spaces is_space N.leb N.eqb N.compare Pos.compare Pos.compare_cont
         Pos.eqb andb orb];
    rewrite Hscan; cbn [skip_spaces]; f_equal; lia.
Qed.

Lemma lit_uint_digits (d : Decimal.uint) :
  forallb (fun c => ((48 <=? c) && (c <=? 57))%N)
          (lit (NilEmpty.string_of_uint d)) = true.
Proof. induction d; simpl; auto. Qed.

Lemma lit_uint_all_digits (d : Decimal.uint) :
  d <> Decimal.Nil -> all_digits (lit (NilZero.string_of_uint d)) = true.
Proof.
  intros Hd. pose proof (lit_uint_digits d) as H.
  destruct d; [contradiction | exact H ..].
Qed.

Lemma lit_String (a : ascii) (s : string) :
  lit (String a s) = N_of_ascii a :: lit s.
Proof. reflexivity. Qed.

Lemma fold_uint_acc (d : Decimal.uint) (acc : positive) :
  fold_left (fun acc c => 10 * acc + Z.of_N (c - 48))
            (lit (NilEmpty.string_of_uint d)) (Z.pos acc)
  = Z.pos (Pos.of_uint_acc d acc).
Proof.
  revert acc; induction d; intros acc;
    cbn [NilEmpty.string_of_uint Pos.of_uint_acc]; [reflexivity | ..];
    rewrite lit_String; cbn [fold_left]; rewrite <- IHd; f_equal;
    match goal with
    | |- context [Z.of_N ?x] =>
        let v := eval vm_compute in (Z.of_N x) in change (Z.of_N x) with v
    end; lia.
Qed.

Lemma decimal_value_uint (d : Decimal.uint) :
  decimal_value (lit (NilEmpty.string_of_uint d)) = Z.of_N (Pos.of_uint d).
Proof.
  unfold decimal_value.
  induction d; simpl; auto; apply (fold_uint_acc d).
Qed.

Lemma py_int_py_str (z : Z) : py_int (py_str z) = Some z.
Proof.
  unfold py_str. destruct z as [|p|p]; simpl Z.to_int.
  - reflexivity.
  - cbn [NilZero.string_of_int].
    rewrite py_int_digits
      by (apply lit_uint_all_digits, Unsigned.to_uint_nonnil).
    f_equal.
    assert (E : NilZero.string_of_uint (Pos.to_uint p)
                = NilEmpty.string_of_uint (Pos.to_uint p)).
    { pose proof (Unsigned.to_uint_nonnil p).
      destruct (Pos.to_uint p); [contradiction | reflexivity ..]. }
    rewrite E, decimal_value_uint, Unsigned.of_to. reflexivity.
  - cbn [NilZero.string_of_int].
    change (lit (String "-" (NilZero.string_of_uint (Pos.to_uint p))))
      with (45%N :: lit (NilZero.string_of_uint (Pos.to_uint p))).
    rewrite py_int_minus_digits
      by (apply lit_uint_all_digits, Unsigned.to_uint_nonnil).
    f_equal.
    assert (E : NilZero.string_of_uint (Pos.to_uint p)
                = NilEmpty.string_of_uint (Pos.to_uint p)).
    { pose proof (Unsigned.to_uint_nonnil p).
      destruct (Pos.to_uint p); [contradiction | reflexivity ..]. }
    rewrite E, decimal_value_uint, Unsigned.of_to. reflexivity.
Qed.

Lemma py_str_digits (z : Z) :
  0 <= z -> all_digits (py_str z) = true /\ decimal_value (py_str z) = z.
Proof.
  intros Hz. unfold py_str. destruct z as [|p|p]; [split; reflexivity | | lia].
  simpl Z.to_int. cbn [NilZero.string_of_int].
  split; [apply lit_uint_all_digits, Unsigned.to_uint_nonnil|].
  assert (E : NilZero.string_of_uint (Pos.to_uint p)
              = NilEmpty.string_of_uint (Pos.to_uint p)).
  { pose proof (Unsigned.to_uint_nonnil p).
    destruct (Pos.to_uint p); [contradiction | reflexivity ..]. }
  rewrite E, decimal_value_uint, Unsigned.of_to. reflexivity.
Qed.

Lemma normalize_py_str (z : Z) : normalize (py_str z) = py_str z.
Proof. unfold normalize. rewrite py_int_py_str. reflexivity. Qed.

Lemma normalize_cases (s : pystr) :
  (exists n, py_int s = Some n /\ normalize s = py_str n)
  \/ (py_int s = None /\ normalize s = s).
Proof.
  unfold normalize. destruct (py_int s) as [n|]; [left; exists n|right]; auto.
Qed.

Lemma all_digits_zeros (k : nat) (ds : list N) :
  all_digits ds = true -> all_digits (repeat 48%N k ++ ds) = true.
Proof.
  intros H.
  assert (Hall : forallb (fun c => ((48 <=? c) && (c <=? 57))%N)
                         (repeat 48%N k ++ ds) = true).
  { rewrite forallb_app. apply andb_true_iff. split.
    - induction k; simpl; auto.
    - destruct ds; [discriminate | exact H]. }
  destruct (repeat 48%N k ++ ds) eqn:E; [|exact Hall].
  apply app_eq_nil in E. destruct E as [_ ->]. discriminate.
Qed.

Lemma decimal_value_zeros (k : nat) (ds : list N) :
  decimal_value (repeat 48%N k ++ ds) = decimal_value ds.
Proof.
  unfold decimal_value. rewrite fold_left_app. f_equal.
  induction k; simpl; auto.
Qed.
(** X1: normalizing a department code twice is the same as normalizing it
    once: a code that parses is replaced by the canonical numeral, which
    parses to the same number, and a code that does not parse is kept. *)
Theorem normalize_idempotent (dep_code : pystr) :
  normalize (normalize dep_code) = normalize dep_code.
Proof.
  destruct (normalize_cases dep_code) as [(n & _ & ->) | (Hnone & ->)].
  - apply normalize_py_str.
  - unfold normalize. rewrite Hnone. reflexivity.
Qed.

(** X2: on department codes of at most 640 digits, the length that [int]
    converts under every setting of the interpreter's digit limit, leading
    zeros are dropped: zeros followed by the decimal numeral of a natural
    number are normalized to that numeral, and a string of digits and the
    same string behind more zeros are normalized to the same code. *)
Theorem normalize_strips_leading_zeros (k : nat) :
  (forall n : N,
     (k + List.length (py_str (Z.of_N n)) <= 640)%nat ->
     normalize (repeat 48%N k ++ py_str (Z.of_N n)) = py_str (Z.of_N n))
  /\ (forall ds,
        all_digits ds = true ->
        (k + List.length ds <= 640)%nat ->
        normalize (repeat 48%N k ++ ds) = normalize ds).
Proof.
  assert (H : forall ds, all_digits ds = true ->
                normalize (repeat 48%N k ++ ds) = normalize ds).
  { intros ds Hds. unfold normalize.
    rewrite (py_int_digits _ (all_digits_zeros k ds Hds)).
    rewrite (py_int_digits _ Hds), decimal_value_zeros. reflexivity. }
  split; [|intros ds Hds _; exact (H ds Hds)].
  intros n _. destruct (py_str_digits (Z.of_N n)) as [Hd _]; [lia|].
  rewrite (H _ Hd). apply normalize_py_str.
Qed.

(** ** The update loops in closed form *)

Lemma find_last {A} (p : A -> bool) (l : list A) (x : A) :
  find p (l ++ [x])
  = match find p l with
    | Some y => Some y
    | None => if p x then Some x else None
    end.
Proof.
  induction l as [|y l IH]; simpl; [reflexivity|].
  destruct (p y); auto.
Qed.

Lemma resolve_name_last regions code name :
  resolve_name regions code name
  = match find (fun r => str_eqb code (Region.code r)) (rev regions) with
    | Some r => Region.name r
    | None => name
    end.
Proof.
  unfold resolve_name.
  revert name; induction regions as [|row regions IH]; intros name; simpl; auto.
  rewrite IH, find_last.
  destruct (find _ (rev regions)); [reflexivity|].
  destruct (str_eqb code (Region.code row)); reflexivity.
Qed.

Lemma attach_area row b a :
  attach row (mkEnriched b a)
  = mkEnriched b (if str_eqb (Department_code b) (normalize (code_dep row))
                  then row else a).
Proof.
  unfold attach. simpl.
  destruct (str_eqb (Department_code b) (normalize (code_dep row)));
    [destruct row | destruct a]; reflexivity.
Qed.

Lemma enrich_last rows b :
  enrich rows b
  = mkEnriched b
      match find (fun row => str_eqb (Department_code b)
                                     (normalize (code_dep row)))
                 (rev rows) with
      | Some row => row
      | None => empty_area
      end.
Proof.
  unfold enrich. generalize empty_area as a.
  induction rows as [|row rows IH]; intros a; simpl; auto.
  rewrite attach_area, IH, find_last.
  destruct (find _ (rev rows)); [reflexivity|].
  destruct (str_eqb (Department_code b) (normalize (code_dep row)));
    reflexivity.
Qed.

(** X3: merge_regions_and_departments is the left join on the region code
    in which the last region of the table with a given code wins: each
    department row becomes, in place, the record with its region code, code
    and name, and as name_reg the name of the last region having that code,
    or the empty string when there is none. *)
Theorem merge_regions_and_departments_last_region regions departments :
  merge_regions_and_departments regions departments
  = map (fun d =>
           mkArea (Department.region_code d)
                  match find (fun r => str_eqb (Department.region_code d)
                                               (Region.code r))
                             (rev regions) with
                  | Some r => Region.name r
                  | None => []
                  end
                  (Department.code d) (Department.name d))
        departments.
Proof.
  rewrite merge_regions_and_departments_rows.
  apply map_ext. intros d. rewrite resolve_name_last. reflexivity.
Qed.

(** X4: merge_referendum_and_areas is the filter on non-alphabetic
    department codes followed by a left join: each kept ballot row gets the
    four columns of the last record of regions_and_departments whose
    normalized code_dep equals the row's department code, all four from
    that one record, or four empty strings when there is none. *)
Theorem merge_referendum_and_areas_last_match
  referendum regions_and_departments :
  merge_referendum_and_areas referendum regions_and_departments
  = map (fun b =>
           mkEnriched b
             match find (fun row => str_eqb (Department_code b)
                                            (normalize (code_dep row)))
                        (rev regions_and_departments) with
             | Some row => row
             | None => mkArea [] [] [] []
             end)
        (filter (fun b => negb (isalpha (Department_code b))) referendum).
Proof.
  rewrite merge_referendum_and_areas_rows.
  apply map_ext. intros b. apply enrich_last.
Qed.

(** X5: the merge works row by row: the merged table of two ballot tables
    put end to end is the merged table of the first followed by the merged
    table of the second. *)
Theorem merge_referendum_and_areas_app
  referendum referendum' regions_and_departments :
  merge_referendum_and_areas (referendum ++ referendum') regions_and_departments
  = merge_referendum_and_areas referendum regions_and_departments
    ++ merge_referendum_and_areas referendum' regions_and_departments.
Proof.
  rewrite !merge_referendum_and_areas_rows, filter_app, map_app.
  reflexivity.
Qed.

Lemma normalize_never_noncanonical (s code : pystr) (n : Z) :
  py_int code = Some n -> code <> py_str n -> normalize s <> code.
Proof.
  intros Hn Hc E.
  destruct (normalize_cases s) as [(m & _ & Hm) | (Hnone & Hs)].
  - rewrite Hm in E. subst code. rewrite py_int_py_str in Hn.
    injection Hn as ->. contradiction.
  - rewrite Hs in E. subst s. congruence.
Qed.

(** X6: only the department side of the comparison is normalized.  A ballot
    row whose own department code is a number written otherwise than
    [str(int(code))] writes it (leading zeros, a sign [+], blanks,
    underscores) matches no record, whatever the table of regions and
    departments, and comes out with four empty area columns. *)
Theorem noncanonical_ballot_code_unmatched
  referendum regions_and_departments b n :
  In b referendum ->
  isalpha (Department_code b) = false ->
  py_int (Department_code b) = Some n ->
  Department_code b <> py_str n ->
  In (mkEnriched b (mkArea [] [] [] []))
     (merge_referendum_and_areas referendum regions_and_departments).
Proof.
  intros Hin Ha Hn Hc.
  rewrite merge_referendum_and_areas_rows.
  apply in_map_iff. exists b. split.
  - apply enrich_unmatched. intros row _.
    apply (normalize_never_noncanonical _ _ n Hn Hc).
  - apply filter_In. split; [exact Hin|].
    unfold mainland. rewrite Ha. reflexivity.
Qed.

(** X7: the two joins compose.  When a ballot row with a non-alphabetic
    code equals the normalized code of exactly one department, and the
    regions carrying that department's region code all have the same name,
    the merged table holds the ballot row with that department's region
    code, that region name, and the department's own code and name. *)
Theorem ballot_joined_through_department
  referendum regions departments b d r :
  In b referendum ->
  isalpha (Department_code b) = false ->
  In d departments ->
  normalize (Department.code d) = Department_code b ->
  (forall d', In d' departments ->
              normalize (Department.code d') = Department_code b -> d' = d) ->
  In r regions ->
  Region.code r = Department.region_code d ->
  (forall r', In r' regions ->
              Region.code r' = Department.region_code d ->
              Region.name r' = Region.name r) ->
  In (mkEnriched b (mkArea (Department.region_code d) (Region.name r)
                           (Department.code d) (Department.name d)))
     (merge_referendum_and_areas referendum
        (merge_regions_and_departments regions departments)).
Proof.
  intros Hb Ha Hd Hcode Honly Hr Hrc Hname.
  rewrite merge_referendum_and_areas_rows.
  apply in_map_iff. exists b. split.
  2:{ apply filter_In. split; [exact Hb|].
      unfold mainland. rewrite Ha. reflexivity. }
  rewrite enrich_last. f_equal.
  rewrite merge_regions_and_departments_rows.
  set (F := fun d0 => mkArea (Department.region_code d0)
                        (resolve_name regions (Department.region_code d0) [])
                        (Department.code d0) (Department.name d0)).
  set (p := fun row => str_eqb (Department_code b) (normalize (code_dep row))).
  assert (HF : F d = mkArea (Department.region_code d) (Region.name r)
                            (Department.code d) (Department.name d)).
  { unfold F. f_equal.
    destruct (resolve_name_some regions _ [] r Hr Hrc) as (r' & Hr' & Hc' & ->).
    apply Hname; assumption. }
  destruct (find p (rev (map F departments))) as [row|] eqn:E.
  - apply find_some in E. destruct E as [Hin Hp].
    apply in_rev, in_map_iff in Hin. destruct Hin as (d' & <- & Hd').
    unfold p in Hp. apply str_eqb_eq in Hp. simpl in Hp.
    rewrite (Honly d' Hd' (eq_sym Hp)). exact HF.
  - exfalso.
    assert (Hp : p (F d) = false).
    { apply (find_none _ _ E). apply in_rev. rewrite rev_involutive.
      apply in_map. exact Hd. }
    unfold p in Hp. simpl in Hp. rewrite Hcode, str_eqb_refl in Hp.
    discriminate.
Qed.
(** ** Order and size of the aggregated table *)

(** X8: the rows of compute_referendum_result_by_regions come in strictly
    increasing order of region name, compared code point by code point. *)
Theorem result_names_sorted df :
  StronglySorted str_lt
    (map res_name_reg (compute_referendum_result_by_regions df)).
Proof. rewrite compute_names. apply sorted_unique_sorted. Qed.

Lemma sorted_same_elements (l l' : list pystr) :
  StronglySorted str_lt l -> StronglySorted str_lt l' ->
  (forall x, In x l <-> In x l') -> l = l'.
Proof.
  intros Hl. revert l'.
  induction Hl as [|x l Hs IH Hall]; intros l' Hl' Hsame.
  - destruct l' as [|y l']; [reflexivity|].
    exfalso. apply (Hsame y). simpl; auto.
  - destruct Hl' as [|y l' Hs' Hall'].
    + exfalso. apply (Hsame x). simpl; auto.
    + rewrite Forall_forall in Hall, Hall'.
      assert (Hxy : x = y).
      { destruct (proj1 (Hsame x) (or_introl eq_refl)) as [E | Hx]; [auto|].
        destruct (proj2 (Hsame y) (or_introl eq_refl)) as [E | Hy]; [auto|].
        exfalso. apply (str_lt_irrefl x).
        apply str_lt_trans with y; auto. }
      subst y. f_equal. apply IH; [exact Hs'|].
      intros z. split; intros Hz.
      * destruct (proj1 (Hsame z) (or_intror Hz)) as [E | Hz']; [|exact Hz'].
        subst z. exfalso. exact (str_lt_irrefl x (Hall x Hz)).
      * destruct (proj2 (Hsame z) (or_intror Hz)) as [E | Hz']; [|exact Hz'].
        subst z. exfalso. exact (str_lt_irrefl x (Hall' x Hz)).
Qed.

Lemma sorted_unique_same_elements (l l' : list pystr) :
  (forall x, In x l <-> In x l') -> sorted_unique l = sorted_unique l'.
Proof.
  intros H. apply sorted_same_elements; try apply sorted_unique_sorted.
  intros x. rewrite !In_sorted_unique. apply H.
Qed.

Lemma filter_Permutation {A} (f : A -> bool) (l l' : list A) :
  Permutation l l' -> Permutation (filter f l) (filter f l').
Proof.
  induction 1 as [| x l l' _ IH | x y l | l l' l'' _ IH1 _ IH2]; simpl.
  - constructor.
  - destruct (f x); [constructor|]; exact IH.
  - destruct (f x), (f y); try apply Permutation_refl. constructor.
  - apply Permutation_trans with (filter f l'); assumption.
Qed.

Lemma zsum_Permutation (l l' : list Z) : Permutation l l' -> zsum l = zsum l'.
Proof.
  induction 1; simpl; lia.
Qed.

Lemma sum64_group_Permutation (f : BallotRow -> Z) key df df' :
  Permutation df df' ->
  sum64 (column f (group key df)) = sum64 (column f (group key df')).
Proof.
  intros H. rewrite !sum64_zsum. f_equal.
  apply zsum_Permutation. unfold column. apply Permutation_map.
  unfold group. apply filter_Permutation. exact H.
Qed.

(** X9: the result does not depend on the order of the input rows: two
    enriched tables with the same rows in any order give the same result
    table, row for row. *)
Theorem result_independent_of_row_order df df' :
  Permutation df df' ->
  compute_referendum_result_by_regions df
  = compute_referendum_result_by_regions df'.
Proof.
  intros H. unfold compute_referendum_result_by_regions.
  rewrite (sorted_unique_same_elements (map region_of df) (map region_of df')).
  - apply map_ext. intros [i key].
    rewrite !(sum64_group_Permutation _ key df df' H). reflexivity.
  - intros x. split; apply Permutation_in.
    + apply Permutation_map. exact H.
    + apply Permutation_map, Permutation_sym. exact H.
Qed.

(** X10: each of the five count columns is conserved by the aggregation in
    int64 arithmetic: the sum of the column over the result rows is the sum
    of the column over the input rows. *)
Theorem aggregation_conserves_all_counts df :
  let out := compute_referendum_result_by_regions df in
  sum64 (map res_Registered out) = sum64 (column Registered df)
  /\ sum64 (map res_Abstentions out) = sum64 (column Abstentions df)
  /\ sum64 (map res_Null out) = sum64 (column Null df)
  /\ sum64 (map res_Choice_A out) = sum64 (column Choice_A df)
  /\ sum64 (map res_Choice_B out) = sum64 (column Choice_B df).
Proof.
  intros out. subst out. unfold compute_referendum_result_by_regions.
  repeat split.
  - rewrite (enumerate_map _ res_Registered
               (fun key => sum64 (column Registered (group key df)))) by auto.
    apply sum64_groups.
  - rewrite (enumerate_map _ res_Abstentions
               (fun key => sum64 (column Abstentions (group key df)))) by auto.
    apply sum64_groups.
  - rewrite (enumerate_map _ res_Null
               (fun key => sum64 (column Null (group key df)))) by auto.
    apply sum64_groups.
  - rewrite (enumerate_map _ res_Choice_A
               (fun key => sum64 (column Choice_A (group key df)))) by auto.
    apply sum64_groups.
  - rewrite (enumerate_map _ res_Choice_B
               (fun key => sum64 (column Choice_B (group key df)))) by auto.
    apply sum64_groups.
Qed.

Lemma compute_length df :
  List.length (compute_referendum_result_by_regions df)
  = List.length (sorted_unique (map region_of df)).
Proof.
  unfold compute_referendum_result_by_regions.
  rewrite length_map, length_combine, length_seq. apply Nat.min_id.
Qed.

(** X11: the result has at most as many rows as the input, and it is empty
    exactly when the input is empty. *)
Theorem result_size df :
  (List.length (compute_referendum_result_by_regions df) <= List.length df)%nat
  /\ (compute_referendum_result_by_regions df = [] <-> df = []).
Proof.
  split.
  - rewrite compute_length, <- (length_map region_of df).
    apply NoDup_incl_length; [apply sorted_unique_NoDup|].
    intros x. apply In_sorted_unique.
  - split.
    + intros H. destruct df as [|r df]; [reflexivity|]. exfalso.
      assert (Hlen : List.length (sorted_unique (map region_of (r :: df))) = 0%nat)
        by (rewrite <- compute_length, H; reflexivity).
      apply length_zero_iff_nil in Hlen.
      assert (Hin : In (region_of r) (sorted_unique (map region_of (r :: df))))
        by (apply In_sorted_unique; simpl; auto).
      rewrite Hlen in Hin. exact Hin.
    + intros ->. reflexivity.
Qed.
(** ** Success and failure of plot_referendum_map and of the script *)

Lemma first_geometry_find region_map name :
  first_geometry region_map name
  = match find (fun g => str_eqb (nom g) name) region_map with
    | Some g => Ok (geometry g)
    | None => Raise IndexError
    end.
Proof.
  unfold first_geometry.
  induction region_map as [|g l IH]; simpl; [reflexivity|].
  destruct (str_eqb (nom g) name); [reflexivity | exact IH].
Qed.

Lemma mapM_ok_all {A B} (f : A -> result B) (l : list A) :
  (forall a, In a l -> exists b, f a = Ok b) -> exists bs, mapM f l = Ok bs.
Proof.
  induction l as [|x l IH]; intros H; simpl.
  - exists []. reflexivity.
  - destruct (H x (or_introl eq_refl)) as (b & ->).
    destruct IH as (bs & ->); [intros a Ha; apply H; simpl; auto|].
    exists (b :: bs). reflexivity.
Qed.

Lemma mapM_ok_each {A B} (f : A -> result B) (l : list A) (bs : list B) :
  mapM f l = Ok bs -> forall a, In a l -> exists b, f a = Ok b.
Proof.
  revert bs; induction l as [|x l IH]; intros bs; simpl; [tauto|].
  destruct (f x) as [b|e] eqn:Ex; simpl; [|discriminate].
  destruct (mapM f l) as [bs'|e] eqn:El; simpl; [|discriminate].
  intros _ a [<- | Ha]; [exists b; exact Ex | exact (IH bs' eq_refl a Ha)].
Qed.

Lemma mapM_raise_only {A B} (f : A -> result B) (l : list A) (e : exn) :
  (forall x e, f x = Raise e -> e = IndexError) ->
  mapM f l = Raise e -> e = IndexError.
Proof.
  intros Honly. induction l as [|x l IH]; simpl; [discriminate|].
  destruct (f x) as [b|e'] eqn:Ex; simpl.
  - destruct (mapM f l) as [bs|e'']; simpl; [discriminate|].
    intros [= <-]. apply IH. reflexivity.
  - intros [= <-]. exact (Honly x e' Ex).
Qed.

Lemma plot_raise_only region_map results e :
  plot_referendum_map region_map results = Raise e -> e = IndexError.
Proof.
  unfold plot_referendum_map.
  destruct (mapM _ results) as [geoms|e'] eqn:E; simpl; [discriminate|].
  intros [= <-].
  apply (mapM_raise_only _ _ _ (fun x e => first_geometry_raises _ _ e) E).
Qed.

Lemma plot_ok_found region_map results out :
  plot_referendum_map region_map results = Ok out ->
  forall row, In row results ->
    exists g, In g region_map /\ nom g = res_name_reg row.
Proof.
  unfold plot_referendum_map.
  destruct (mapM _ results) as [geoms|e] eqn:E; simpl; [|discriminate].
  intros _ row Hrow.
  destruct (mapM_ok_each _ _ _ E row Hrow) as (b & Hb).
  rewrite first_geometry_find in Hb.
  destruct (find _ region_map) as [g|] eqn:Ef; [|discriminate].
  apply find_some in Ef. destruct Ef as [Hg Hn].
  exists g. split; [exact Hg | apply str_eqb_eq; exact Hn].
Qed.

Lemma plot_ok_of_found region_map results :
  (forall row, In row results ->
     exists g, In g region_map /\ nom g = res_name_reg row) ->
  exists out, plot_referendum_map region_map results = Ok out.
Proof.
  intros H. unfold plot_referendum_map.
  destruct (mapM_ok_all (fun row => first_geometry region_map (res_name_reg row))
              results) as (geoms & ->).
  - intros row Hrow. destruct (H row Hrow) as (g & Hg & Hn).
    rewrite first_geometry_find.
    destruct (find _ region_map) as [g'|] eqn:Ef; [eexists; reflexivity|].
    exfalso. pose proof (find_none _ _ Ef g Hg) as Hf. simpl in Hf.
    rewrite Hn, str_eqb_refl in Hf. discriminate.
  - simpl. eexists. reflexivity.
Qed.

(** X12: plot_referendum_map returns a table exactly when every result row
    has a region name that is the display name of some region of the
    geographic source; the table then has, at each position, the result row
    with the geometry of the first region of that name in the source and
    the ratio Choice A / (Choice B + Choice A). *)
Theorem plot_succeeds_iff_geometries_found region_map results :
  ((forall row, In row results ->
      exists g, In g region_map /\ nom g = res_name_reg row)
   <-> exists out, plot_referendum_map region_map results = Ok out)
  /\ forall out,
      plot_referendum_map region_map results = Ok out ->
      forall i row,
        nth_error results i = Some row ->
        exists g,
          find (fun g => str_eqb (nom g) (res_name_reg row)) region_map = Some g
          /\ nth_error out i
             = Some (mkRendered (geometry g) row
                       (true_divide (res_Choice_A row)
                          (add64 (res_Choice_B row) (res_Choice_A row)))).
Proof.
  split.
  - split; [apply plot_ok_of_found|].
    intros (out & Hout). exact (plot_ok_found _ _ _ Hout).
  - unfold plot_referendum_map.
    destruct (mapM _ results) as [geoms|e] eqn:E; simpl; [|discriminate].
    intros out [= <-] i row Hrow.
    destruct (mapM_rows _
                (fun '(g, row) =>
                   mkRendered g row
                     (true_divide (res_Choice_A row)
                        (add64 (res_Choice_B row) (res_Choice_A row))))
                _ _ E) as [_ Hnth].
    destruct (Hnth i row Hrow) as (g0 & Hg0 & Hi).
    rewrite first_geometry_find in Hg0.
    destruct (find _ region_map) as [g|]; [|discriminate].
    injection Hg0 as <-. exists g. split; [reflexivity | exact Hi].
Qed.

Lemma add64_zero (a b : Z) :
  0 <= a -> 0 <= b -> in_int64 a -> in_int64 b -> add64 b a = 0 ->
  a = 0 /\ b = 0.
Proof.
  unfold add64, wrap64, in_int64. intros Ha Hb Hia Hib H.
  destruct (Z_lt_ge_dec (b + a) (2 ^ 63)) as [Hlt | Hge].
  - rewrite Z.mod_small in H; lia.
  - exfalso.
    replace (b + a + 2 ^ 63) with ((b + a - 2 ^ 63) + 1 * 2 ^ 64) in H by lia.
    rewrite Z_mod_plus_full, Z.mod_small in H; lia.
Qed.

(** X13: a zero denominator raises nothing.  In a table returned by
    plot_referendum_map, a row with non-negative int64 counts whose computed
    denominator Choice B + Choice A is zero has both counts zero and the
    ratio NaN. *)
Theorem ratio_of_no_expressed_ballot region_map results out i row :
  plot_referendum_map region_map results = Ok out ->
  nth_error results i = Some row ->
  0 <= res_Choice_A row -> 0 <= res_Choice_B row ->
  in_int64 (res_Choice_A row) -> in_int64 (res_Choice_B row) ->
  add64 (res_Choice_B row) (res_Choice_A row) = 0 ->
  res_Choice_A row = 0 /\ res_Choice_B row = 0
  /\ exists rd, nth_error out i = Some rd /\ rd_result rd = row /\ ratio rd = NaN.
Proof.
  intros Hout Hrow Ha Hb Hia Hib Hz.
  destruct (add64_zero _ _ Ha Hb Hia Hib Hz) as [Ea Eb].
  split; [exact Ea | split; [exact Eb|]].
  revert Hout. unfold plot_referendum_map.
  destruct (mapM _ results) as [geoms|e] eqn:E; simpl; [|discriminate].
  intros [= <-].
  destruct (mapM_rows _
              (fun '(g, row) =>
                 mkRendered g row
                   (true_divide (res_Choice_A row)
                      (add64 (res_Choice_B row) (res_Choice_A row))))
              _ _ E) as [_ Hnth].
  destruct (Hnth i row Hrow) as (g & _ & Hi).
  eexists. split; [exact Hi|]. simpl. split; [reflexivity|].
  rewrite Hz, Ea. reflexivity.
Qed.

Lemma enrich_area_cases rows b :
  area (enrich rows b) = empty_area \/ In (area (enrich rows b)) rows.
Proof.
  rewrite enrich_last. simpl.
  destruct (find _ (rev rows)) as [row|] eqn:E; [right | left; reflexivity].
  apply find_some in E. destruct E as [Hin _]. apply in_rev. exact Hin.
Qed.

Lemma pipeline_region_names referendum df_reg df_dep name :
  In name (map res_name_reg
             (compute_referendum_result_by_regions
                (merge_referendum_and_areas referendum
                   (merge_regions_and_departments df_reg df_dep)))) ->
  name = [] \/ exists r, In r df_reg /\ Region.name r = name.
Proof.
  rewrite compute_names, In_sorted_unique, merge_referendum_and_areas_rows.
  rewrite map_map. intros H. apply in_map_iff in H.
  destruct H as (b & <- & _). unfold region_of.
  destruct (enrich_area_cases (merge_regions_and_departments df_reg df_dep) b)
    as [-> | Hin]; [left; reflexivity|].
  rewrite merge_regions_and_departments_rows in *.
  apply in_map_iff in Hin. destruct Hin as (d & <- & _). simpl.
  destruct (resolve_name_cases df_reg (Department.region_code d) [])
    as [-> | (r & Hr & _ & ->)]; [left; reflexivity|].
  right. exists r. auto.
Qed.

(** X14: when the script's pipeline returns a table, every row of it has a
    region name that is the empty string or the name of a region of the
    region table, and that is the display name of a region of the
    geographic source; its counts are those of a row of the aggregated
    table. *)
Theorem main_rows_name_known_regions referendum df_reg df_dep region_map out :
  main referendum df_reg df_dep region_map = Ok out ->
  forall rd, In rd out ->
    let name := res_name_reg (rd_result rd) in
    In (rd_result rd)
       (compute_referendum_result_by_regions
          (merge_referendum_and_areas referendum
             (merge_regions_and_departments df_reg df_dep)))
    /\ (name = [] \/ exists r, In r df_reg /\ Region.name r = name)
    /\ exists g, In g region_map /\ nom g = name.
Proof.
  unfold main. intros Hout rd Hrd. cbv zeta in Hout |- *.
  set (results := compute_referendum_result_by_regions _) in *.
  assert (Hin : In (rd_result rd) results).
  { revert Hout Hrd. unfold plot_referendum_map.
    destruct (mapM _ results) as [geoms|e]; simpl; [|discriminate].
    intros [= <-] Hrd. apply in_map_iff in Hrd.
    destruct Hrd as ([g row] & <- & Hc). simpl.
    exact (in_combine_r _ _ _ _ Hc). }
  split; [exact Hin | split].
  - apply (pipeline_region_names referendum df_reg df_dep).
    apply in_map. exact Hin.
  - exact (plot_ok_found _ _ _ Hout _ Hin).
Qed.

(** X15: the script fails on dangling references through the empty region
    name.  When some ballot row with a non-alphabetic code is such that
    every department whose normalized code equals it (possibly none) has a
    region code carried by no region, and no region of the geographic
    source has the empty display name, the pipeline raises IndexError. *)
Theorem main_fails_on_dangling_reference
  referendum df_reg df_dep region_map b :
  In b referendum ->
  isalpha (Department_code b) = false ->
  (forall d, In d df_dep ->
     normalize (Department.code d) = Department_code b ->
     forall r, In r df_reg -> Region.code r <> Department.region_code d) ->
  (forall g, In g region_map -> nom g <> []) ->
  main referendum df_reg df_dep region_map = Raise IndexError.
Proof.
  intros Hb Ha Hdangling Hgeo. unfold main.
  set (results := compute_referendum_result_by_regions _).
  assert (Hempty : In [] (map res_name_reg results)).
  { subst results.
    rewrite compute_names, In_sorted_unique, merge_referendum_and_areas_rows.
    rewrite map_map. apply in_map_iff. exists b. split.
    - unfold region_of. rewrite enrich_last. simpl.
      destruct (find _ (rev _)) as [row|] eqn:E; [|reflexivity].
      apply find_some in E. destruct E as [Hin Hp].
      apply in_rev in Hin.
      rewrite merge_regions_and_departments_rows in Hin.
      apply in_map_iff in Hin. destruct Hin as (d & <- & Hd).
      simpl in Hp. apply str_eqb_eq in Hp. simpl.
      apply resolve_name_none. intros r Hr.
      exact (Hdangling d Hd (eq_sym Hp) r Hr).
    - apply filter_In. split; [exact Hb|].
      unfold mainland. rewrite Ha. reflexivity. }
  apply in_map_iff in Hempty. destruct Hempty as (row & Hname & Hrow).
  destruct (plot_referendum_map region_map results) as [out|e] eqn:E.
  - exfalso. destruct (plot_ok_found _ _ _ E row Hrow) as (g & Hg & Hn).
    apply (Hgeo g Hg). congruence.
  - rewrite (plot_raise_only _ _ _ E). reflexivity.
Qed.
(** ** Independence of the order of the reference tables *)

Lemma find_rev_Permutation {A} (p : A -> bool) (l l' : list A) :
  Permutation l l' ->
  match find p (rev l), find p (rev l') with
  | Some x, Some x' => In x l /\ In x' l /\ p x = true /\ p x' = true
  | None, None => True
  | _, _ => False
  end.
Proof.
  intros H.
  destruct (find p (rev l)) as [x|] eqn:E; destruct (find p (rev l')) as [x'|] eqn:E'.
  - apply find_some in E, E'. destruct E as [Hx Hp], E' as [Hx' Hp'].
    apply in_rev in Hx. apply in_rev in Hx'.
    repeat split; auto. apply (Permutation_in _ (Permutation_sym H) Hx').
  - apply find_some in E. destruct E as [Hx Hp]. apply in_rev in Hx.
    pose proof (find_none _ _ E' x) as Hf.
    rewrite Hf in Hp; [discriminate|].
    apply in_rev. rewrite rev_involutive. apply (Permutation_in _ H Hx).
  - apply find_some in E'. destruct E' as [Hx' Hp']. apply in_rev in Hx'.
    pose proof (find_none _ _ E x') as Hf.
    rewrite Hf in Hp'; [discriminate|].
    apply in_rev. rewrite rev_involutive.
    apply (Permutation_in _ (Permutation_sym H) Hx').
  - exact I.
Qed.

(** X16: when the code identifies the region, the order of the region
    table does not matter: permuting its rows leaves the output of
    merge_regions_and_departments unchanged. *)
Theorem merge_regions_and_departments_region_order
  regions regions' departments :
  region_key regions ->
  Permutation regions regions' ->
  merge_regions_and_departments regions departments
  = merge_regions_and_departments regions' departments.
Proof.
  intros Hkey Hperm. rewrite !merge_regions_and_departments_rows.
  apply map_ext. intros d. f_equal. rewrite !resolve_name_last.
  pose proof (find_rev_Permutation
                (fun r => str_eqb (Department.region_code d) (Region.code r))
                regions regions' Hperm) as H.
  destruct (find _ (rev regions)) as [r|]; destruct (find _ (rev regions')) as [r'|];
    try contradiction; [|reflexivity].
  destruct H as (Hr & Hr' & Hp & Hp').
  apply str_eqb_eq in Hp, Hp'. apply Hkey; congruence.
Qed.

(** X17: when no two records of regions_and_departments have the same
    normalized department code, their order does not matter: permuting them
    leaves the output of merge_referendum_and_areas unchanged. *)
Theorem merge_referendum_and_areas_area_order
  referendum regions_and_departments regions_and_departments' :
  (forall row row',
     In row regions_and_departments -> In row' regions_and_departments ->
     normalize (code_dep row) = normalize (code_dep row') -> row = row') ->
  Permutation regions_and_departments regions_and_departments' ->
  merge_referendum_and_areas referendum regions_and_departments
  = merge_referendum_and_areas referendum regions_and_departments'.
Proof.
  intros Hkey Hperm. rewrite !merge_referendum_and_areas_rows.
  apply map_ext. intros b. rewrite !enrich_last. f_equal.
  pose proof (find_rev_Permutation
                (fun row => str_eqb (Department_code b)
                                    (normalize (code_dep row)))
                _ _ Hperm) as H.
  destruct (find _ (rev regions_and_departments)) as [r|];
    destruct (find _ (rev regions_and_departments')) as [r'|];
    try contradiction; [|reflexivity].
  destruct H as (Hr & Hr' & Hp & Hp').
  apply str_eqb_eq in Hp, Hp'. apply Hkey; congruence.
Qed.

Lemma column_merge (f : BallotRow -> Z) referendum regions_and_departments :
  column f (merge_referendum_and_areas referendum regions_and_departments)
  = map f (filter mainland referendum).
Proof.
  unfold column.
  rewrite <- (merge_referendum_and_areas_ballots
                referendum regions_and_departments), map_map.
  reflexivity.
Qed.

(** X18: merging and aggregating lose no kept ballot row, matched or not:
    for each of the five counts, the int64 sum of the column over the
    result table is the int64 sum of the column over the ballot rows whose
    department code is not purely alphabetic. *)
Theorem pipeline_conserves_counts referendum regions_and_departments :
  let kept :=
    filter (fun b => negb (isalpha (Department_code b))) referendum in
  let out :=
    compute_referendum_result_by_regions
      (merge_referendum_and_areas referendum regions_and_departments) in
  sum64 (map res_Registered out) = sum64 (map Registered kept)
  /\ sum64 (map res_Abstentions out) = sum64 (map Abstentions kept)
  /\ sum64 (map res_Null out) = sum64 (map Null kept)
  /\ sum64 (map res_Choice_A out) = sum64 (map Choice_A kept)
  /\ sum64 (map res_Choice_B out) = sum64 (map Choice_B kept).
Proof.
  intros kept out. subst kept out.
  set (df := merge_referendum_and_areas referendum regions_and_departments).
  change (filter (fun b => negb (isalpha (Department_code b))) referendum)
    with (filter mainland referendum).
  rewrite <- !(column_merge _ referendum regions_and_departments).
  fold df. unfold compute_referendum_result_by_regions.
  repeat split.
  - rewrite (enumerate_map _ res_Registered
               (fun key => sum64 (column Registered (group key df)))) by auto.
    apply sum64_groups.
  - rewrite (enumerate_map _ res_Abstentions
               (fun key => sum64 (column Abstentions (group key df)))) by auto.
    apply sum64_groups.
  - rewrite (enumerate_map _ res_Null
               (fun key => sum64 (column Null (group key df)))) by auto.
    apply sum64_groups.
  - rewrite (enumerate_map _ res_Choice_A
               (fun key => sum64 (column Choice_A (group key df)))) by auto.
    apply sum64_groups.
  - rewrite (enumerate_map _ res_Choice_B
               (fun key => sum64 (column Choice_B (group key df)))) by auto.
    apply sum64_groups.
Qed.
(** ** What an enriched row can carry *)

(** X19: every row of the output of merge_referendum_and_areas either has
    four empty area columns or carries, whole, a record of
    regions_and_departments whose normalized department code is the row's
    own department code; in both cases the normalized code_dep of the row
    is not purely alphabetic, so no record of an alphabetic department code
    is ever attached. *)
Theorem enriched_rows_carry_matching_record
  referendum regions_and_departments r :
  In r (merge_referendum_and_areas referendum regions_and_departments) ->
  (area r = mkArea [] [] [] []
   \/ (In (area r) regions_and_departments
       /\ normalize (code_dep (area r)) = Department_code (ballot r)))
  /\ isalpha (normalize (code_dep (area r))) = false.
Proof.
  rewrite merge_referendum_and_areas_rows. intros Hr.
  apply in_map_iff in Hr. destruct Hr as (b & <- & Hb).
  apply filter_In in Hb. destruct Hb as [_ Hm].
  unfold mainland in Hm. apply negb_true_iff in Hm.
  rewrite enrich_last. simpl.
  destruct (find _ (rev regions_and_departments)) as [row|] eqn:E.
  - apply find_some in E. destruct E as [Hin Hp].
    apply in_rev in Hin. apply str_eqb_eq in Hp.
    split; [right; split; [exact Hin | symmetry; exact Hp]|].
    rewrite <- Hp. exact Hm.
  - split; [left; reflexivity | reflexivity].
Qed.
End Pipeline.

(** ** The properties at the example tables *)

Lemma exact_rounding_proper (p q : Q) :
  p == q -> exact_rounding p == exact_rounding q.
Proof. intros H. exact H. Qed.

Lemma exact_rounding_monotone (p q : Q) :
  (p <= q)%Q -> (exact_rounding p <= exact_rounding q)%Q.
Proof. intros H. exact H. Qed.

Lemma exact_rounding_exact (z : Z) :
  Z.abs z <= 2 ^ 53 -> exact_rounding (inject_Z z) == inject_Z z.
Proof. intros _. reflexivity. Qed.

Lemma end_to_end_example_witness :
  compute_referendum_result_by_regions
    (merge_referendum_and_areas latin1 [ex_ballot "1"]
       (merge_regions_and_departments ex_regions ex_departments))
  = [ex_result]
  /\ exists q,
       plot_referendum_map exact_rounding nat
         [mkGeo (lit "84") auvergne_rhone_alpes 7%nat] [ex_result]
       = Ok [mkRendered 7%nat ex_result (Finite q)]
       /\ q == 40 # 75.
Proof.
  destruct (end_to_end_example latin1 exact_rounding nat
              exact_rounding_proper exact_rounding_exact
              (lit "AIN") (lit "Amberieu") (lit "84") 1 7%nat)
    as (_ & Hres & q & Hplot & Hq).
  split; [exact Hres|]. exists q. split; [exact Hplot | exact Hq].
Defined.

Lemma alphabetic_rows_excluded_witness :
  isalpha latin1 (Department_code (ex_ballot "ZZ")) = true
  /\ (~ exists r,
         In r (merge_referendum_and_areas latin1
                 [ex_ballot "1"; ex_ballot "ZZ"]
                 (merge_regions_and_departments ex_regions ex_departments))
         /\ ballot r = ex_ballot "ZZ")
  /\ compute_referendum_result_by_regions
       (merge_referendum_and_areas latin1 [ex_ballot "1"]
          (merge_regions_and_departments ex_regions ex_departments))
     = compute_referendum_result_by_regions
         (merge_referendum_and_areas latin1 [ex_ballot "1"; ex_ballot "ZZ"]
            (merge_regions_and_departments ex_regions ex_departments)).
Proof.
  destruct (alphabetic_rows_excluded latin1 [ex_ballot "1"; ex_ballot "ZZ"]
              (merge_regions_and_departments ex_regions ex_departments))
    as (Habsent & Hsame & _).
  split; [reflexivity | split].
  - apply Habsent. reflexivity.
  - apply (Hsame [ex_ballot "1"]). reflexivity.
Defined.

Lemma merge_regions_and_departments_join_witness :
  region_key ex_regions
  /\ exists rec,
       nth_error (merge_regions_and_departments ex_regions ex_departments) 0
       = Some rec
       /\ name_reg rec = auvergne_rhone_alpes.
Proof.
  assert (Hkey : region_key ex_regions).
  { intros r r' [<- | []] [<- | []] _. reflexivity. }
  split; [exact Hkey|].
  destruct (merge_regions_and_departments_join ex_regions ex_departments)
    as [_ Hrow].
  destruct (Hrow 0%nat (Department.mk (lit "84") (lit "01") (lit "Ain")) eq_refl)
    as (rec & Hnth & _ & _ & _ & _ & Hname).
  exists rec. split; [exact Hnth|].
  apply (Hname Hkey (Region.mk (lit "84") auvergne_rhone_alpes)).
  - left. reflexivity.
  - reflexivity.
Defined.


Lemma ratio_within_unit_interval_witness :
  plot_referendum_map exact_rounding nat
    [mkGeo (lit "84") auvergne_rhone_alpes 7%nat] [ex_result]
  = Ok [mkRendered 7%nat ex_result (Finite (40 # 75))]
  /\ 0 < 40 + 35 < 2 ^ 63
  /\ (0 <= exact_rounding (of_int64 exact_rounding 40
                           / of_int64 exact_rounding (40 + 35)) <= 1)%Q.
Proof.
  assert (Hplot : plot_referendum_map exact_rounding nat
                    [mkGeo (lit "84") auvergne_rhone_alpes 7%nat] [ex_result]
                  = Ok [mkRendered 7%nat ex_result (Finite (40 # 75))])
    by reflexivity.
  split; [exact Hplot | split; [lia|]].
  destruct (ratio_within_unit_interval exact_rounding nat
              exact_rounding_proper exact_rounding_monotone
              exact_rounding_exact _ _ _ Hplot) as [_ Hrow].
  destruct (Hrow 0%nat ex_result eq_refl) as (rd & _ & _ & _ & Hratio).
  simpl in Hratio.
  apply Hratio; lia.
Defined.

(** C5 (as the specification states it) fails: with Choice A = Choice B =
    2^62, two non-negative int64 counts of positive sum, the int64
    denominator wraps around to -2^63 and the ratio is -1/2. *)
Lemma overflowing_counts_ratio_negative :
  ~ ratio_always_within_unit_interval exact_rounding nat
      [mkGeo (lit "84") auvergne_rhone_alpes 7%nat] [ex_overflow_result].
Proof.
  intros H.
  set (rd := mkRendered 7%nat ex_overflow_result
                (true_divide exact_rounding (2 ^ 62)
                             (add64 (2 ^ 62) (2 ^ 62)))).
  destruct (H [rd] 0%nat ex_overflow_result rd)
    as (q & Hq & Hlow & _);
    try reflexivity; try (unfold in_int64; simpl; lia); try (simpl; lia).
  vm_compute in Hq. injection Hq as <-.
  vm_compute in Hlow. apply Hlow. reflexivity.
Qed.

Lemma merge_regions_and_departments_unresolved_witness :
  (forall r, In r ex_regions -> Region.code r <> lit "99")
  /\ nth_error (merge_regions_and_departments ex_regions ex_orphan_departments) 0
     = Some (mkArea (lit "99") [] (lit "01") (lit "Ain")).
Proof.
  assert (Hnone : forall r, In r ex_regions -> Region.code r <> lit "99").
  { intros r [<- | []]. discriminate. }
  split; [exact Hnone|].
  apply (merge_regions_and_departments_unresolved ex_regions
           ex_orphan_departments 0
           (Department.mk (lit "99") (lit "01") (lit "Ain")));
    [reflexivity | exact Hnone].
Defined.

(** C7 (as the specification states it) fails: the department of region
    code 99, which no region carries, gets the empty region name. *)
Lemma unresolved_region_not_surfaced :
  ~ unresolved_region_surfaced ex_regions ex_orphan_departments.
Proof.
  intros H.
  apply (H 0%nat (Department.mk (lit "99") (lit "01") (lit "Ain"))
           (mkArea (lit "99") [] (lit "01") (lit "Ain")));
    try reflexivity.
  intros r [<- | []]. discriminate.
Qed.

Lemma merge_referendum_and_areas_keeps_non_alphabetic_witness :
  In (ex_ballot "2A") [ex_ballot "2A"; ex_ballot "ZZ"]
  /\ isalpha latin1 (Department_code (ex_ballot "2A")) = false
  /\ exists r,
       In r (merge_referendum_and_areas latin1
               [ex_ballot "2A"; ex_ballot "ZZ"]
               (merge_regions_and_departments ex_regions ex_departments))
       /\ ballot r = ex_ballot "2A".
Proof.
  assert (Hin : In (ex_ballot "2A") [ex_ballot "2A"; ex_ballot "ZZ"])
    by (left; reflexivity).
  split; [exact Hin | split; [reflexivity|]].
  destruct (merge_referendum_and_areas_keeps_non_alphabetic latin1
              [ex_ballot "2A"; ex_ballot "ZZ"]
              (merge_regions_and_departments ex_regions ex_departments))
    as (_ & _ & Hkept).
  apply Hkept; [exact Hin | reflexivity].
Defined.

(** C8 (as the specification states it) fails: the row of department code
    2A, neither alphabetic nor numeric, is in the output. *)
Lemma mixed_code_survives :
  ~ only_numeric_survive latin1 [ex_ballot "2A"]
      (merge_regions_and_departments ex_regions ex_departments).
Proof.
  intros H.
  specialize (H (mkEnriched (ex_ballot "2A") empty_area) (or_introl eq_refl)).
  vm_compute in H. discriminate.
Qed.

Lemma plot_referendum_map_missing_geometry_witness :
  In ex_result [ex_result]
  /\ (forall g, In g ex_region_map -> nom g <> res_name_reg ex_result)
  /\ plot_referendum_map exact_rounding nat ex_region_map [ex_result]
     = Raise IndexError.
Proof.
  assert (Hin : In ex_result [ex_result]) by (left; reflexivity).
  assert (Hnone : forall g, In g ex_region_map -> nom g <> res_name_reg ex_result).
  { intros g [<- | []]. discriminate. }
  split; [exact Hin | split; [exact Hnone|]].
  apply (plot_referendum_map_missing_geometry exact_rounding nat
           ex_region_map [ex_result] ex_result Hin Hnone).
Defined.

(** C9 (as the specification states it) fails: with no geometry named
    Auvergne-Rhône-Alpes the error is not an UnresolvedReferenceError
    naming the region. *)
Lemma missing_geometry_not_reported :
  ~ unresolved_geometry_reported exact_rounding nat ex_region_map [ex_result].
Proof.
  intros H.
  specialize (H ex_result (or_introl eq_refl)).
  assert (Hnone : forall g, In g ex_region_map -> nom g <> res_name_reg ex_result).
  { intros g [<- | []]. discriminate. }
  specialize (H Hnone). vm_compute in H. discriminate.
Qed.

Lemma unmatched_rows_kept_empty_witness :
  let areas := merge_regions_and_departments ex_regions ex_departments in
  In (ex_ballot "75") [ex_ballot "1"; ex_ballot "75"]
  /\ isalpha latin1 (Department_code (ex_ballot "75")) = false
  /\ (forall row, In row areas ->
                  normalize latin1 (code_dep row)
                  <> Department_code (ex_ballot "75"))
  /\ In (mkEnriched (ex_ballot "75") (mkArea [] [] [] []))
        (merge_referendum_and_areas latin1 [ex_ballot "1"; ex_ballot "75"] areas)
  /\ exists i,
       In (mkResult i [] 100 20 5 40 35)
          (compute_referendum_result_by_regions
             (merge_referendum_and_areas latin1
                [ex_ballot "1"; ex_ballot "75"] areas)).
Proof.
  intros areas.
  assert (Hin : In (ex_ballot "75") [ex_ballot "1"; ex_ballot "75"])
    by (right; left; reflexivity).
  assert (Hnone : forall row, In row areas ->
                    normalize latin1 (code_dep row)
                    <> Department_code (ex_ballot "75")).
  { intros row [<- | []]. discriminate. }
  split; [exact Hin | split; [reflexivity | split; [exact Hnone|]]].
  destruct (unmatched_rows_kept_empty latin1
              [ex_ballot "1"; ex_ballot "75"] areas (ex_ballot "75")
              Hin eq_refl Hnone) as (Hdf & _ & i & Hi).
  split; [exact Hdf|]. exists i. exact Hi.
Defined.

(** ** The Python primitives at sample values *)

Example normalize_zero_padded : normalize latin1 (lit "01") = lit "1".
Proof. reflexivity. Qed.

Example normalize_signed_blank : normalize latin1 (lit " -007 ") = lit "-7".
Proof. reflexivity. Qed.

Example normalize_underscore : normalize latin1 (lit "1_0") = lit "10".
Proof. reflexivity. Qed.

Example normalize_not_a_number :
  normalize latin1 (lit "2A") = lit "2A"
  /\ normalize latin1 (lit "1__0") = lit "1__0"
  /\ normalize latin1 (lit "") = lit ""
  /\ normalize latin1 (lit "1 0") = lit "1 0".
Proof. repeat split. Qed.

Example isalpha_samples :
  isalpha latin1 (lit "ZZ") = true
  /\ isalpha latin1 (lit "2A") = false
  /\ isalpha latin1 (lit "75") = false
  /\ isalpha latin1 [] = false
  /\ isalpha latin1 (lit "Rh" ++ [244%N] ++ lit "ne") = true.
Proof. repeat split. Qed.

Example wrap64_overflow :
  add64 (2 ^ 62) (2 ^ 62) = - 2 ^ 63 /\ sum64 [2 ^ 63 - 1; 1] = - 2 ^ 63.
Proof. split; reflexivity. Qed.

Example true_divide_by_zero :
  true_divide exact_rounding 0 0 = NaN
  /\ true_divide exact_rounding 3 0 = PosInf
  /\ true_divide exact_rounding (-3) 0 = NegInf.
Proof. repeat split. Qed.

Example sorted_unique_sample :
  sorted_unique [lit "b"; lit "a"; lit "b"; lit "B"; lit ""]
  = [lit ""; lit "B"; lit "a"; lit "b"].
Proof. reflexivity. Qed.

(** ** Further properties at the example tables *)

Lemma normalize_strips_leading_zeros_witness :
  all_digits (lit "75") = true
  /\ (2 + List.length (lit "75") <= 640)%nat
  /\ normalize latin1 (repeat 48%N 2 ++ lit "75") = normalize latin1 (lit "75").
Proof.
  assert (Hlen : (2 + List.length (lit "75") <= 640)%nat) by (simpl; lia).
  split; [reflexivity | split; [exact Hlen|]].
  apply (normalize_strips_leading_zeros latin1 2); [reflexivity | exact Hlen].
Defined.

Lemma noncanonical_ballot_code_unmatched_witness :
  let areas := merge_regions_and_departments ex_regions ex_departments in
  code_dep (hd empty_area areas) = lit "01"
  /\ py_int latin1 (lit "01") = Some 1
  /\ lit "01" <> py_str 1
  /\ In (mkEnriched (ex_ballot "01") (mkArea [] [] [] []))
        (merge_referendum_and_areas latin1 [ex_ballot "01"] areas).
Proof.
  intros areas.
  assert (Hc : lit "01" <> py_str 1) by discriminate.
  split; [reflexivity | split; [reflexivity | split; [exact Hc|]]].
  apply (noncanonical_ballot_code_unmatched latin1 [ex_ballot "01"] areas
           (ex_ballot "01") 1);
    [left; reflexivity | reflexivity | reflexivity | exact Hc].
Defined.

Lemma ballot_joined_through_department_witness :
  In (mkEnriched (ex_ballot "1")
        (mkArea (lit "84") auvergne_rhone_alpes (lit "01") (lit "Ain")))
     (merge_referendum_and_areas latin1 [ex_ballot "1"; ex_ballot "ZZ"]
        (merge_regions_and_departments ex_regions ex_departments)).
Proof.
  apply (ballot_joined_through_department latin1
           [ex_ballot "1"; ex_ballot "ZZ"] ex_regions ex_departments
           (ex_ballot "1")
           (Department.mk (lit "84") (lit "01") (lit "Ain"))
           (Region.mk (lit "84") auvergne_rhone_alpes)).
  - left. reflexivity.
  - reflexivity.
  - left. reflexivity.
  - reflexivity.
  - intros d' [<- | []] _. reflexivity.
  - left. reflexivity.
  - reflexivity.
  - intros r' [<- | []] _. reflexivity.
Defined.

Lemma result_independent_of_row_order_witness :
  let e1 := ex_enriched (lit "84") auvergne_rhone_alpes in
  let e2 := ex_enriched (lit "11") (lit "Ile-de-France") in
  Permutation [e1; e2; e1] [e2; e1; e1]
  /\ compute_referendum_result_by_regions [e1; e2; e1]
     = compute_referendum_result_by_regions [e2; e1; e1].
Proof.
  intros e1 e2.
  assert (H : Permutation [e1; e2; e1] [e2; e1; e1]) by apply perm_swap.
  split; [exact H|].
  apply (result_independent_of_row_order _ _ H).
Defined.

Lemma result_size_witness :
  let df := [ex_enriched (lit "84") auvergne_rhone_alpes;
             ex_enriched (lit "84") auvergne_rhone_alpes] in
  (List.length (compute_referendum_result_by_regions df) <= 2)%nat
  /\ compute_referendum_result_by_regions df <> [].
Proof.
  intros df. destruct (result_size df) as [Hlen Hempty].
  split; [exact Hlen|].
  intros H. apply Hempty in H. discriminate.
Defined.

Lemma plot_succeeds_iff_geometries_found_witness :
  let region_map := [mkGeo (lit "84") auvergne_rhone_alpes 7%nat] in
  (forall row, In row [ex_result] ->
     exists g, In g region_map /\ nom g = res_name_reg row)
  /\ exists out,
       plot_referendum_map exact_rounding nat region_map [ex_result] = Ok out.
Proof.
  intros region_map.
  assert (H : forall row, In row [ex_result] ->
                exists g, In g region_map /\ nom g = res_name_reg row).
  { intros row [<- | []].
    exists (mkGeo (lit "84") auvergne_rhone_alpes 7%nat).
    split; [left|]; reflexivity. }
  split; [exact H|].
  destruct (plot_succeeds_iff_geometries_found exact_rounding nat
              region_map [ex_result]) as [[Hok _] _].
  exact (Hok H).
Defined.

Lemma ratio_of_no_expressed_ballot_witness :
  let row := mkResult 0 auvergne_rhone_alpes 100 100 0 0 0 in
  let region_map := [mkGeo (lit "84") auvergne_rhone_alpes 7%nat] in
  plot_referendum_map exact_rounding nat region_map [row]
  = Ok [mkRendered 7%nat row NaN]
  /\ add64 (res_Choice_B row) (res_Choice_A row) = 0
  /\ exists rd,
       nth_error [mkRendered 7%nat row NaN] 0 = Some rd
       /\ rd_result rd = row /\ ratio rd = NaN.
Proof.
  intros row region_map.
  assert (Hplot : plot_referendum_map exact_rounding nat region_map [row]
                  = Ok [mkRendered 7%nat row NaN]) by reflexivity.
  split; [exact Hplot | split; [reflexivity|]].
  destruct (ratio_of_no_expressed_ballot exact_rounding nat region_map [row]
              _ 0%nat row Hplot eq_refl) as (_ & _ & H);
    unfold in_int64; simpl; try lia; try reflexivity.
  exact H.
Defined.

Lemma main_rows_name_known_regions_witness :
  let region_map := [mkGeo (lit "84") auvergne_rhone_alpes 7%nat] in
  let rd := mkRendered 7%nat ex_result (Finite (40 # 75)) in
  main latin1 exact_rounding nat [ex_ballot "1"] ex_regions ex_departments
       region_map = Ok [rd]
  /\ (res_name_reg (rd_result rd) = []
      \/ exists r, In r ex_regions
                   /\ Region.name r = res_name_reg (rd_result rd))
  /\ exists g, In g region_map /\ nom g = res_name_reg (rd_result rd).
Proof.
  intros region_map rd.
  assert (Hmain : main latin1 exact_rounding nat [ex_ballot "1"] ex_regions
                    ex_departments region_map = Ok [rd]) by reflexivity.
  split; [exact Hmain|].
  destruct (main_rows_name_known_regions latin1 exact_rounding nat _ _ _ _ _
              Hmain rd (or_introl eq_refl)) as (_ & Hname & Hgeo).
  split; [exact Hname | exact Hgeo].
Defined.

Lemma main_fails_on_dangling_reference_witness :
  let region_map := [mkGeo (lit "84") auvergne_rhone_alpes 7%nat] in
  (forall d, In d ex_departments ->
     normalize latin1 (Department.code d) <> Department_code (ex_ballot "75"))
  /\ main latin1 exact_rounding nat [ex_ballot "1"; ex_ballot "75"]
          ex_regions ex_departments region_map
     = Raise IndexError.
Proof.
  intros region_map.
  assert (Hnone : forall d, In d ex_departments ->
                    normalize latin1 (Department.code d)
                    <> Department_code (ex_ballot "75")).
  { intros d [<- | []]. discriminate. }
  split; [exact Hnone|].
  apply (main_fails_on_dangling_reference latin1 exact_rounding nat
           [ex_ballot "1"; ex_ballot "75"] ex_regions ex_departments
           region_map (ex_ballot "75")).
  - right. left. reflexivity.
  - reflexivity.
  - intros d Hd Hcode. exfalso. exact (Hnone d Hd Hcode).
  - intros g [<- | []]. discriminate.
Defined.

Lemma merge_regions_and_departments_region_order_witness :
  let r1 := Region.mk (lit "84") auvergne_rhone_alpes in
  let r2 := Region.mk (lit "11") (lit "Ile-de-France") in
  region_key [r1; r2]
  /\ merge_regions_and_departments [r1; r2] ex_departments
     = merge_regions_and_departments [r2; r1] ex_departments.
Proof.
  intros r1 r2.
  assert (Hkey : region_key [r1; r2]).
  { intros r r' [<- | [<- | []]] [<- | [<- | []]] H;
      try reflexivity; discriminate H. }
  split; [exact Hkey|].
  apply (merge_regions_and_departments_region_order [r1; r2] [r2; r1]
           ex_departments Hkey).
  apply perm_swap.
Defined.

Lemma merge_referendum_and_areas_area_order_witness :
  let a1 := mkArea (lit "84") auvergne_rhone_alpes (lit "01") (lit "Ain") in
  let a2 := mkArea (lit "11") (lit "Ile-de-France") (lit "75") (lit "Paris") in
  merge_referendum_and_areas latin1 [ex_ballot "75"; ex_ballot "1"] [a1; a2]
  = merge_referendum_and_areas latin1 [ex_ballot "75"; ex_ballot "1"] [a2; a1].
Proof.
  intros a1 a2.
  apply (merge_referendum_and_areas_area_order latin1
           [ex_ballot "75"; ex_ballot "1"] [a1; a2] [a2; a1]).
  - intros row row' [<- | [<- | []]] [<- | [<- | []]] H;
      try reflexivity; discriminate H.
  - apply perm_swap.
Defined.

Lemma enriched_rows_carry_matching_record_witness :
  let areas := merge_regions_and_departments ex_regions ex_departments in
  let r := mkEnriched (ex_ballot "1")
             (mkArea (lit "84") auvergne_rhone_alpes (lit "01") (lit "Ain")) in
  In r (merge_referendum_and_areas latin1 [ex_ballot "1"; ex_ballot "ZZ"] areas)
  /\ In (area r) areas
  /\ normalize latin1 (code_dep (area r)) = Department_code (ballot r).
Proof.
  intros areas r.
  assert (Hr : In r (merge_referendum_and_areas latin1
                       [ex_ballot "1"; ex_ballot "ZZ"] areas))
    by (left; reflexivity).
  split; [exact Hr|].
  destruct (enriched_rows_carry_matching_record latin1 _ _ r Hr)
    as [[Hempty | Hmatch] _]; [discriminate Hempty | exact Hmatch].
Defined.
